(** * squad-teamkill-bot: the log correlation engine of [bot.py]

    A shallow embedding of [TKMonitor] (src/squad_teamkill_bot/bot.py):
    the four regular expressions and Python's [re.search] on them, the
    damage window, the teamkill correlator, the admin-camera tracker and
    the truncation check of the log follower.

    How the program is read:
    - a line is a string of bytes; every literal of the patterns is ASCII
      and every class is a digit range or the complement of one ASCII
      character, so matching byte by byte finds the same groups as matching
      character by character;
    - a method is a function from the state to an outcome and a state: it
      returns or raises, and what it assigned before raising stays
      assigned.  The errors are the [ValueError] of [datetime.strptime] and
      the [OSError] of opening the admin-camera log file;
    - a time text is read by [Time.strptime], which takes the digits 0 to 9
      as [datetime.strptime] does.  The library also takes the other
      decimal digits of Unicode in some fields; a time text holding a
      character outside ASCII is outside what is modelled, and the
      properties say what happens to a time text only when it is read here,
      or when it is not and holds ASCII characters only;
    - [int] is taken on strings of digits of any length;
    - calls to [logger.debug] only write diagnostics and are left out, and
      so is everything after [run_tkm] receives a record. *)

From Stdlib Require Import ZArith Ascii String List Lia Bool.
From stdpp Require Import base decidable option list strings gmap.

Open Scope string_scope.
Open Scope list_scope.
Open Scope Z_scope.

#[local] Set Warnings "-clear-no-such-hyp".

(** ** Strings *)

Module Str.

Definition nl : ascii := "010"%char.

Fixpoint strip_prefix (p s : string) : option string :=
  match p with
  | EmptyString => Some s
  | String a p' =>
      match s with
      | EmptyString => None
      | String b s' => if Ascii.eqb a b then strip_prefix p' s' else None
      end
  end.

Fixpoint take (n : nat) (s : string) : string :=
  match n, s with
  | S n', String a s' => String a (take n' s')
  | _, _ => EmptyString
  end.

Fixpoint drop (n : nat) (s : string) : string :=
  match n, s with
  | S n', String _ s' => drop n' s'
  | _, _ => s
  end.

Fixpoint all (f : ascii -> bool) (s : string) : bool :=
  match s with
  | EmptyString => true
  | String a s' => f a && all f s'
  end.

Definition is_digit (a : ascii) : bool :=
  let n := nat_of_ascii a in (Nat.leb 48 n && Nat.leb n 57)%bool.

Definition digit_val (a : ascii) : Z := Z.of_nat (nat_of_ascii a) - 48.


(** Python's [int(s)] on a string of ASCII digits (the only strings the
    source converts are matches of [[0-9]+]). *)
Definition int (s : string) : Z :=
  fold_left (fun acc a => 10 * acc + digit_val a) (list_ascii_of_string s) 0.

End Str.

(** ** Regular expressions

    The patterns of [bot.py] are sequences of literal text and greedy
    repetitions of one character class, some of them named groups.  [Rep g c
    mn] is [c*] ([mn = 0]) or [c+] ([mn = 1]), wrapped in [(?P<g>...)] when
    [g] is a name. *)

Module Re.

Inductive cclass : Type :=
| Dot                 (* .      any character but a newline *)
| NoneOf (a : ascii)  (* [^a]   any character but [a] *)
| Digit.              (* [0-9] *)

Inductive item : Type :=
| Lit (s : string)
| Rep (g : option string) (c : cclass) (mn : nat).

Definition regex := list item.

(** A match object, as far as the source uses one: its named groups. *)
Definition Match := list (string * string).

Definition accepts (c : cclass) (a : ascii) : bool :=
  match c with
  | Dot => negb (Ascii.eqb a Str.nl)
  | NoneOf b => negb (Ascii.eqb a b)
  | Digit => Str.is_digit a
  end.

(** Length of the longest prefix of [s] made of characters of [c]. *)
Fixpoint span (c : cclass) (s : string) : nat :=
  match s with
  | String a s' => if accepts c a then S (span c s') else O
  | EmptyString => O
  end.

Definition bind_group (g : option string) (t : string) (m : Match) : Match :=
  match g with
  | Some name => (name, t) :: m
  | None => m
  end.

(** Matching at the start of [s], as a backtracking engine does it: a
    greedy repetition first takes the longest run and gives characters back
    one at a time until the rest of the pattern matches. *)
Fixpoint match_here (r : regex) (s : string) : option Match :=
  match r with
  | [] => Some []
  | Lit l :: r' =>
      match Str.strip_prefix l s with
      | Some s' => match_here r' s'
      | None => None
      end
  | Rep g c mn :: r' =>
      (fix give_back (k : nat) : option Match :=
         let attempt :=
           if Nat.leb mn k then match_here r' (Str.drop k s) else None in
         match attempt with
         | Some m => Some (bind_group g (Str.take k s) m)
         | None =>
             match k with
             | O => None
             | S k' => give_back k'
             end
         end) (span c s)
  end.

(** [re.search]: the match at the leftmost position that has one. *)
Fixpoint search (r : regex) (s : string) : option Match :=
  match match_here r s with
  | Some m => Some m
  | None =>
      match s with
      | EmptyString => None
      | String _ s' => search r s'
      end
  end.

(** [m.group(name)] for a group of the pattern; the source never asks for
    a name its pattern lacks. *)
Fixpoint group (m : Match) (name : string) : string :=
  match m with
  | [] => ""
  | (n, t) :: m' => if String.eqb n name then t else group m' name
  end.

End Re.

Import Re.

(** ** The four patterns of [bot.py] *)

(* _match_damage, lines 128-138 *)
Definition damage_re : regex :=
  [ Lit "["; Rep (Some "time") (NoneOf "]") 1; Lit "]";
    Lit "["; Rep (Some "log_id") Digit 1; Lit "]";
    Lit "LogSquad: Player:";
    Rep (Some "victim") Dot 0;
    Lit " ActualDamage="; Rep None Dot 0; Lit " from ";
    Rep (Some "killer") Dot 0;
    Lit " caused by ";
    Lit "BP_"; Rep (Some "weapon") (NoneOf "_") 0; Lit "_" ].

(* _match_teamkill, lines 157-162 *)
Definition teamkill_re : regex :=
  [ Lit "["; Rep (Some "log_id") Digit 1; Lit "]";
    Rep None (NoneOf Str.nl) 0;
    Lit "LogSquadScorePoints:"; Rep None (NoneOf Str.nl) 0; Lit "TeamKilled" ].

(* _match_admincam, lines 208-219 *)
Definition possess_re : regex :=
  [ Lit "["; Rep (Some "time") (NoneOf "]") 1; Lit "]";
    Lit "["; Rep (Some "log_id") Digit 1; Lit "]";
    Rep None (NoneOf Str.nl) 0;
    Lit "ASQPlayerController::Possess";
    Rep None (NoneOf Str.nl) 0;
    Lit "PC="; Rep (Some "user") Dot 0; Lit " ";
    Rep None (NoneOf Str.nl) 0;
    Lit "Pawn=CameraMan_C_" ].

(* _match_admincam, lines 230-239 *)
Definition unpossess_re : regex :=
  [ Lit "["; Rep (Some "time") (NoneOf "]") 1; Lit "]";
    Lit "["; Rep (Some "log_id") Digit 1; Lit "]";
    Rep None (NoneOf Str.nl) 0;
    Lit "ASQPlayerController::UnPossess";
    Rep None (NoneOf Str.nl) 0;
    Lit "PC="; Rep (Some "user") Dot 0 ].

(** ** Timestamps *)

Inductive tzinfo : Type := UTC.

Record datetime : Type := mk_datetime {
  year : Z; month : Z; day : Z;
  hour : Z; minute : Z; second : Z; microsecond : Z;
  tz : option tzinfo
}.

Module Time.

(** Reads the digits [a], [b] as a two-digit number. *)
Definition two (a b : ascii) : Z := 10 * Str.digit_val a + Str.digit_val b.

Definition in_range (lo hi a : ascii) : bool :=
  (Nat.leb (nat_of_ascii lo) (nat_of_ascii a)
   && Nat.leb (nat_of_ascii a) (nat_of_ascii hi))%bool.

(** One field of the format: the alternatives of the directive's pattern
    in the order [_strptime] lists them, each giving the value read and the
    text left.  Fields are separated by literal characters that no
    alternative accepts, so the first alternative that applies is the only
    one that can be followed by the separator. *)

(* %Y : \d\d\d\d *)
Definition field_Y (s : string) : option (Z * string) :=
  match s with
  | String a (String b (String c (String d s'))) =>
      if (Str.is_digit a && Str.is_digit b && Str.is_digit c && Str.is_digit d)%bool
      then Some (100 * two a b + two c d, s') else None
  | _ => None
  end.

(** A directive whose alternatives are [X[lo-hi]] for a leading digit [X]
    with its own range of second digits, then a lone digit. *)
Definition two_then_one (alts : list (ascii * ascii * ascii * ascii))
    (one_lo one_hi : ascii) (s : string) : option (Z * string) :=
  let fix try (l : list (ascii * ascii * ascii * ascii)) :=
    match l with
    | (alo, ahi, blo, bhi) :: l' =>
        match s with
        | String a (String b s') =>
            if (in_range alo ahi a && in_range blo bhi b)%bool
            then Some (two a b, s') else try l'
        | _ => try l'
        end
    | [] =>
        match s with
        | String a s' =>
            if in_range one_lo one_hi a then Some (Str.digit_val a, s') else None
        | _ => None
        end
    end in
  try alts.

(* %m : 1[0-2]|0[1-9]|[1-9] *)
Definition field_m : string -> option (Z * string) :=
  two_then_one [("1", "1", "0", "2"); ("0", "0", "1", "9")]%char "1" "9".

(* %d : 3[0-1]|[1-2]\d|0[1-9]|[1-9]| [1-9] *)
Definition field_d (s : string) : option (Z * string) :=
  match two_then_one [("3", "3", "0", "1"); ("1", "2", "0", "9");
                      ("0", "0", "1", "9")]%char "1" "9" s with
  | Some r => Some r
  | None =>
      match s with
      | String " " (String b s') =>
          if in_range "1" "9" b then Some (Str.digit_val b, s') else None
      | _ => None
      end
  end.

(* %H : 2[0-3]|[0-1]\d|\d *)
Definition field_H : string -> option (Z * string) :=
  two_then_one [("2", "2", "0", "3"); ("0", "1", "0", "9")]%char "0" "9".

(* %M : [0-5]\d|\d *)
Definition field_M : string -> option (Z * string) :=
  two_then_one [("0", "5", "0", "9")]%char "0" "9".

(* %S : 6[0-1]|[0-5]\d|\d *)
Definition field_S : string -> option (Z * string) :=
  two_then_one [("6", "6", "0", "1"); ("0", "5", "0", "9")]%char "0" "9".

(* %f : [0-9]{1,6}, padded with zeros on the right to six digits *)
Definition field_f (s : string) : option (Z * string) :=
  let n := Nat.min (Re.span Digit s) 6 in
  match n with
  | O => None
  | _ => Some (Str.int (Str.take n s) * 10 ^ Z.of_nat (6 - n), Str.drop n s)
  end.

Definition sep (l s : string) : option string := Str.strip_prefix l s.

Definition is_leap (y : Z) : bool :=
  ((y mod 4 =? 0) && (negb (y mod 100 =? 0) || (y mod 400 =? 0)))%bool.

Definition days_in_month (y m : Z) : Z :=
  if m =? 2 then (if is_leap y then 29 else 28)
  else if (m =? 4) || (m =? 6) || (m =? 9) || (m =? 11) then 30
  else 31.

(** The checks of the [datetime] constructor. *)
Definition valid (y mo d h mi s us : Z) : bool :=
  ((1 <=? y) && (y <=? 9999) && (1 <=? mo) && (mo <=? 12)
   && (1 <=? d) && (d <=? days_in_month y mo)
   && (0 <=? h) && (h <=? 23) && (0 <=? mi) && (mi <=? 59)
   && (0 <=? s) && (s <=? 59) && (0 <=? us) && (us <=? 999999))%bool.

(** [datetime.strptime(s, "%Y.%m.%d-%H.%M.%S:%f")]; [None] stands for the
    [ValueError] it raises: the text does not fit the format, text is left
    over, or the fields are no date and time.  The digits read are 0 to 9:
    on a text of ASCII characters this is the library's answer; a text with
    other characters is never read here, while the library reads some (the
    other decimal digits of Unicode, where its patterns say [\d]). *)
Definition strptime (s : string) : option datetime :=
  '(y, s) ← field_Y s; s ← sep "." s;
  '(mo, s) ← field_m s; s ← sep "." s;
  '(d, s) ← field_d s; s ← sep "-" s;
  '(h, s) ← field_H s; s ← sep "." s;
  '(mi, s) ← field_M s; s ← sep "." s;
  '(sc, s) ← field_S s; s ← sep ":" s;
  '(us, s) ← field_f s;
  match s with
  | EmptyString =>
      if valid y mo d h mi sc us
      then Some (mk_datetime y mo d h mi sc us None) else None
  | _ => None
  end.

(** [timezone("UTC").localize(t)] *)
Definition localize_utc (t : datetime) : datetime :=
  mk_datetime (year t) (month t) (day t) (hour t) (minute t) (second t)
              (microsecond t) (Some UTC).

Definition digit_char (n : Z) : ascii := ascii_of_nat (48 + Z.to_nat (n mod 10)).

Definition pad2 (n : Z) : string :=
  String (digit_char (n / 10)) (String (digit_char n) "").

Definition pad4 (n : Z) : string := pad2 (n / 100) +:+ pad2 (n mod 100).

(** [t.strftime("%Y.%m.%d - %H:%M:%S")], the year on four digits as the C
    library of the bot's platform prints it. *)
Definition strftime (t : datetime) : string :=
  pad4 (year t) +:+ "." +:+ pad2 (month t) +:+ "." +:+ pad2 (day t)
  +:+ " - " +:+ pad2 (hour t) +:+ ":" +:+ pad2 (minute t)
  +:+ ":" +:+ pad2 (second t).

End Time.

(** ** The monitor and what it touches *)

(** Modelled from the spec: the class [TeamKill] of [teamkill.py], which is
    not part of the sources at hand.  [bot.py] builds it from four values
    and reads them back as [time_utc], [victim], [killer] and [weapon]. *)
Record TeamKill : Type := mk_TeamKill {
  time_utc : datetime;
  victim : string;
  killer : string;
  weapon : string
}.

(* TKMonitor.__init__, lines 30-33 *)
Record TKMonitor : Type := mk_TKMonitor {
  recent_damages : list Match;
  seen_tks : gset string;
  last_log_id : Z;
  active_admin_cam_users : gset string
}.

Definition TKMonitor_init : TKMonitor :=
  {| recent_damages := []; seen_tks := ∅; last_log_id := 0;
     active_admin_cam_users := ∅ |}.

(** The admin-camera log file: whether opening it for appending succeeds,
    and the text written to it so far, one entry per [write]. *)
Record AuditFile : Type := mk_AuditFile {
  can_open : bool;
  written : list string
}.

Record State : Type := mk_State {
  self : TKMonitor;
  admincam_log : AuditFile
}.

Inductive exn : Type := ValueError | OSError.

Inductive outcome (A : Type) : Type :=
| Return (a : A)
| Raise (e : exn).
Arguments Return {A} a.
Arguments Raise {A} e.

(** A method of the monitor: it ends by returning or by raising, and what it
    assigned before either stays assigned. *)
Definition M (A : Type) : Type := State -> outcome A * State.

#[global] Instance M_ret : MRet M := fun A a st => (Return a, st).

#[global] Instance M_bind : MBind M := fun A B k m st =>
  match m st with
  | (Return a, st') => k a st'
  | (Raise e, st') => (Raise e, st')
  end.

Definition raise {A : Type} (e : exn) : M A := fun st => (Raise e, st).

Definition get_self : M TKMonitor := fun st => (Return (self st), st).

Definition put_self (t : TKMonitor) : M unit :=
  fun st => (Return tt, {| self := t; admincam_log := admincam_log st |}).

Definition set_recent_damages (l : list Match) (t : TKMonitor) : TKMonitor :=
  {| recent_damages := l; seen_tks := seen_tks t;
     last_log_id := last_log_id t;
     active_admin_cam_users := active_admin_cam_users t |}.

Definition set_seen_tks (x : gset string) (t : TKMonitor) : TKMonitor :=
  {| recent_damages := recent_damages t; seen_tks := x;
     last_log_id := last_log_id t;
     active_admin_cam_users := active_admin_cam_users t |}.

Definition set_last_log_id (n : Z) (t : TKMonitor) : TKMonitor :=
  {| recent_damages := recent_damages t; seen_tks := seen_tks t;
     last_log_id := n;
     active_admin_cam_users := active_admin_cam_users t |}.

Definition set_active (x : gset string) (t : TKMonitor) : TKMonitor :=
  {| recent_damages := recent_damages t; seen_tks := seen_tks t;
     last_log_id := last_log_id t;
     active_admin_cam_users := x |}.

Definition modify_self (f : TKMonitor -> TKMonitor) : M unit :=
  t ← get_self; put_self (f t).

(** [datetime.strptime(time_str, "%Y.%m.%d-%H.%M.%S:%f")] as a step of a
    method. *)
Definition strptime (time_str : string) : M datetime :=
  match Time.strptime time_str with
  | Some t => mret t
  | None => raise ValueError
  end.

(** [with open(self.admincam_log_filename, "a", ...) as f: f.write(text)] *)
Definition append_admincam_log (text : string) : M unit := fun st =>
  if can_open (admincam_log st)
  then (Return tt,
        {| self := self st;
           admincam_log := {| can_open := true;
                              written := written (admincam_log st) ++ [text] |} |})
  else (Raise OSError, st).

(** ** The methods of [TKMonitor] *)

(* lines 146-150: append, then drop the oldest entry above 20 *)
Definition remember_damage (actual_damage : Match) (l : list Match) : list Match :=
  let l' := l ++ [actual_damage] in
  if Nat.ltb 20 (List.length l') then tail l' else l'.

(* lines 123-151 *)
Definition _match_damage (line : string) : M bool :=
  match search damage_re line with
  | None => mret false
  | Some actual_damage =>
      modify_self (fun t =>
        set_recent_damages (remember_damage actual_damage (recent_damages t)) t);;
      mret true
  end.

(* lines 182-198: the loop over [self.recent_damages]; leaving the loop
   without a hit ends the method, which then returns [None] *)
Fixpoint match_log_ids (team_kill : Match) (dmgs : list Match)
    : M (option TeamKill) :=
  match dmgs with
  | [] => mret None
  | dmg :: rest =>
      if String.eqb (group dmg "log_id") (group team_kill "log_id") then
        time_naive ← strptime (group dmg "time");
        let tk := mk_TeamKill (Time.localize_utc time_naive)
                    (group dmg "victim") (group dmg "killer")
                    (group dmg "weapon") in
        modify_self (fun t =>
          set_seen_tks ({[ group team_kill "log_id" ]} ∪ seen_tks t) t);;
        mret (Some tk)
      else match_log_ids team_kill rest
  end.

(* lines 153-198 *)
Definition _match_teamkill (line : string) : M (option TeamKill) :=
  match search teamkill_re line with
  | None => mret None
  | Some team_kill =>
      t ← get_self;
      (if Str.int (group team_kill "log_id") + 500 <? last_log_id t
       then modify_self (set_seen_tks ∅) else mret tt);;
      modify_self (set_last_log_id (Str.int (group team_kill "log_id")));;
      t ← get_self;
      if decide (group team_kill "log_id" ∈ seen_tks t) then mret None
      else match_log_ids team_kill (recent_damages t)
  end.

Definition newline : string := String Str.nl "".

(* lines 252-273: what [_match_admincam] does once [change] is set *)
Definition log_admincam_change (change : string) (m : Match) : M bool :=
  time_naive ← strptime (group m "time");
  let time_utc_str := Time.strftime (Time.localize_utc time_naive) in
  let log_message :=
    "[" +:+ time_utc_str +:+ " UTC] " +:+ change +:+ ": " +:+ group m "user" in
  append_admincam_log (log_message +:+ newline);;
  mret true.

(* lines 200-273 *)
Definition _match_admincam (line : string) : M bool :=
  match search possess_re line with
  | Some m =>
      modify_self (fun t =>
        set_active ({[ group m "user" ]} ∪ active_admin_cam_users t) t);;
      log_admincam_change "++++++++++++ ENTER" m
  | None =>
      match search unpossess_re line with
      | Some m =>
          t ← get_self;
          if decide (group m "user" ∈ active_admin_cam_users t) then
            modify_self (fun t =>
              set_active (active_admin_cam_users t ∖ {[ group m "user" ]}) t);;
            log_admincam_change "--- POSSIBLE LEAVE" m
          else mret false
      | None => mret false
      end
  end.

(* lines 108-121 *)
Definition parse_line (line : string) : M (option TeamKill) :=
  a ← _match_admincam line;
  if a : bool then mret None else
  d ← _match_damage line;
  if d : bool then mret None else
  _match_teamkill line.

(** Converts a yielded value to the list of records it contributes. *)
Definition yielded (tk : option TeamKill) : list TeamKill :=
  match tk with
  | Some x => [x]
  | None => []
  end.

(* lines 275-283, on the lines the follower hands over: the records
   yielded, how the loop stands (an exception ends the task, [Return tt]
   means it waits for more lines) and the state reached *)
Fixpoint tk_follow (lines : list string) (st : State)
    : list TeamKill * outcome unit * State :=
  match lines with
  | [] => ([], Return tt, st)
  | line :: rest =>
      match parse_line line st with
      | (Return tk, st') =>
          let '(tks, r, st'') := tk_follow rest st' in
          (yielded tk ++ tks, r, st'')
      | (Raise e, st') => ([], Raise e, st')
      end
  end.

(** ** The follower

    The local variables of the generator [_log_follow]: the open file [f]
    (which file object it is and where its cursor was put when it was
    opened), the size last recorded and the line counter. *)

Record LogFile : Type := mk_LogFile {
  handle : N;
  offset : N
}.

Record Follower : Type := mk_Follower {
  f : LogFile;
  file_size : N;
  line_counter : N
}.

(** One task of [run_tkm]: the monitor, the audit file it appends to and the
    follower's variables. *)
Record Task : Type := mk_Task {
  engine : State;
  follower : Follower
}.

(** What the file system answers at the end of a read cycle: the size
    [os.fstat] reports for the open file ([None]: it raises [IOError]), and
    the handle and size a fresh [_open_log_file] would give. *)
Record Probe : Type := mk_Probe {
  st_size : option N;
  fresh_handle : N;
  fresh_size : N
}.

(* lines 39-66: the new file object stands at the end of the file *)
Definition _open_log_file (p : Probe) : LogFile * N :=
  ({| handle := fresh_handle p; offset := fresh_size p |}, fresh_size p).

(* lines 91-102 *)
Definition check_truncated (p : Probe) (fo : Follower) : Follower :=
  match st_size p with
  | Some cur_size =>
      if N.ltb cur_size (file_size fo) then
        let '(f', file_size') := _open_log_file p in
        {| f := f'; file_size := file_size'; line_counter := line_counter fo |}
      else fo
  | None => fo
  end.

(* lines 83-90: a line was read from the same file object; [cur_size] is
   what [os.fstat] reports *)
Definition count_line (line : string) (cur_size : N) (fo : Follower) : Follower :=
  {| f := f fo;
     file_size := if N.eqb (line_counter fo) 0 then cur_size else file_size fo;
     line_counter := (line_counter fo + 1) mod 1000 |}%N.

(** The two things that happen to a task: the follower yields a line, which
    [tk_follow] passes to [parse_line], or the follower reaches the end of
    the file and checks for truncation. *)
Inductive event : Type :=
| Line (line : string) (cur_size : N)
| EndOfFile (p : Probe).

Definition task_step (ev : event) (t : Task) : outcome (option TeamKill) * Task :=
  match ev with
  | Line line cur_size =>
      let '(r, st') := parse_line line (engine t) in
      (r, {| engine := st'; follower := count_line line cur_size (follower t) |})
  | EndOfFile p =>
      (Return None,
       {| engine := engine t; follower := check_truncated p (follower t) |})
  end.

(** ** Notions used to state the properties *)

Module Re_spec.

(** The text a pattern stands for: [matches r t m] when [t] is matched by
    [r] from its first to its last character, with groups [m]. *)
Inductive matches : regex -> string -> Match -> Prop :=
| matches_nil : matches [] "" []
| matches_lit l r s m :
    matches r s m -> matches (Lit l :: r) (l +:+ s) m
| matches_rep g c mn r t s m :
    Str.all (accepts c) t = true ->
    (mn <= String.length t)%nat ->
    matches r s m ->
    matches (Rep g c mn :: r) (t +:+ s) (bind_group g t m).

End Re_spec.

(** The lookup of the correlator: the first buffered damage, oldest first,
    whose [log_id] text is [id]. *)
Definition find_damage (id : string) (dmgs : list Match) : option Match :=
  List.find (fun dmg => String.eqb (group dmg "log_id") id) dmgs.

(** The record built from a buffered damage whose time text reads as [t]. *)
Definition record_of (dmg : Match) (t : datetime) : TeamKill :=
  {| time_utc := Time.localize_utc t;
     victim := group dmg "victim";
     killer := group dmg "killer";
     weapon := group dmg "weapon" |}.

(** The wraparound test of line 170. *)
Definition wraps (id : string) (t : TKMonitor) : bool :=
  Str.int id + 500 <? last_log_id t.

(** The admin-camera transition a line stands for, by its text alone. *)
Inductive change : Type := ENTER | POSSIBLE_LEAVE.

Definition admincam_change (line : string) : option (change * Match) :=
  match search possess_re line with
  | Some m => Some (ENTER, m)
  | None =>
      match search unpossess_re line with
      | Some m => Some (POSSIBLE_LEAVE, m)
      | None => None
      end
  end.

Definition change_text (c : change) : string :=
  match c with
  | ENTER => "++++++++++++ ENTER"
  | POSSIBLE_LEAVE => "--- POSSIBLE LEAVE"
  end.

(** The line of the audit file for a transition read at [t]. *)
Definition audit_entry (c : change) (m : Match) (t : datetime) : string :=
  ("[" +:+ Time.strftime (Time.localize_utc t) +:+ " UTC] " +:+ change_text c
   +:+ ": " +:+ group m "user") +:+ newline.

(** Whether the admin-camera handler takes the line: an enter always, a
    possible leave only for a user in the set. *)
Definition admincam_takes (line : string) (t : TKMonitor) : bool :=
  match admincam_change line with
  | Some (ENTER, _) => true
  | Some (POSSIBLE_LEAVE, m) =>
      bool_decide (group m "user" ∈ active_admin_cam_users t)
  | None => false
  end.







(** The transitions a sequence of lines stands for. *)
Fixpoint transitions (lines : list string) : list (change * string) :=
  match lines with
  | [] => []
  | line :: rest =>
      match admincam_change line with
      | Some (c, m) => (c, group m "user") :: transitions rest
      | None => transitions rest
      end
  end.

(** Lines 170-173 on the monitor: the set is emptied when the test fires,
    then the identifier is recorded. *)
Definition note_log_id (id : string) (t : TKMonitor) : TKMonitor :=
  set_last_log_id (Str.int id)
    (if wraps id t then set_seen_tks ∅ t else t).

Definition with_self (t : TKMonitor) (st : State) : State :=
  {| self := t; admincam_log := admincam_log st |}.

(** Line 196 on the monitor. *)
Definition mark_seen (id : string) (t : TKMonitor) : TKMonitor :=
  set_seen_tks ({[ id ]} ∪ seen_tks t) t.

(** The set of users after a transition the handler takes. *)
Definition apply_change (c : change) (u : string) (t : TKMonitor) : TKMonitor :=
  set_active
    (match c with
     | ENTER => {[ u ]} ∪ active_admin_cam_users t
     | POSSIBLE_LEAVE => active_admin_cam_users t ∖ {[ u ]}
     end) t.

(** The audit file after one more entry. *)
Definition with_entry (text : string) (st : State) : State :=
  {| self := self st;
     admincam_log := {| can_open := true;
                        written := written (admincam_log st) ++ [text] |} |}.

(** The outcome of the admin-camera handler on a line it takes: the set of
    users is updated first, then the time text is read and the entry
    written. *)
Definition admincam_outcome (c : change) (m : Match) (st : State)
    : outcome bool * State :=
  let st' := with_self (apply_change c (group m "user") (self st)) st in
  match Time.strptime (group m "time") with
  | Some t =>
      if can_open (admincam_log st)
      then (Return true, with_entry (audit_entry c m t) st')
      else (Raise OSError, st')
  | None => (Raise ValueError, st')
  end.

(** Lines 146-150 on the monitor. *)
Definition with_damage (dmg : Match) (t : TKMonitor) : TKMonitor :=
  set_recent_damages (remember_damage dmg (recent_damages t)) t.

(** No line of [lines], handled one after the other from [st], is a line of
    the teamkill pattern that makes the wraparound test fire. *)
Fixpoint no_wraparound (lines : list string) (st : State) : Prop :=
  match lines with
  | [] => True
  | line :: rest =>
      (forall team_kill,
         search teamkill_re line = Some team_kill ->
         wraps (group team_kill "log_id") (self st) = false)
      /\ no_wraparound rest (snd (parse_line line st))
  end.

(** The state after the damage handler has been given these lines, one
    after the other (it raises nothing). *)
Definition feed_damages (lines : list string) (st : State) : State :=
  fold_left (fun st line => snd (_match_damage line st)) lines st.

(** The last twenty entries of a list, in their order. *)
Definition last20 {A : Type} (l : list A) : list A :=
  drop (List.length l - 20) l.

(** A task over a sequence of events: the records yielded, how the loop
    stands and the task reached. *)
Fixpoint task_run (evs : list event) (t : Task)
    : list TeamKill * outcome unit * Task :=
  match evs with
  | [] => ([], Return tt, t)
  | ev :: rest =>
      match task_step ev t with
      | (Return tk, t') =>
          let '(tks, r, t'') := task_run rest t' in
          (yielded tk ++ tks, r, t'')
      | (Raise e, t') => ([], Raise e, t')
      end
  end.

(** ** Sample lines and states *)

Module Ex.

(** A monitor as [__init__] leaves it, with an audit file that opens. *)
Definition fresh : State :=
  {| self := TKMonitor_init;
     admincam_log := {| can_open := true; written := [] |} |}.

(** The state a fresh task is in after these lines. *)
Definition fed (lines : list string) : State := snd (tk_follow lines fresh).

Definition damage (time id vic kil asset : string) : string :=
  "[" +:+ time +:+ "][" +:+ id +:+ "]LogSquad: Player:" +:+ vic
  +:+ " ActualDamage=100.0 from " +:+ kil +:+ " caused by " +:+ asset.

Definition teamkill (id : string) : string :=
  "[2024.01.01-00.00.01:000][" +:+ id
  +:+ "]LogSquadScorePoints: Verbose: K TeamKilled V".

Definition damage_55 : string :=
  damage "2024.01.01-00.00.00:000" "55" "V" "K" "BP_AK47_C_2147".

(** A second damage line with the same [log_id]. *)
Definition damage_55_again : string :=
  damage "2024.01.01-00.00.00:500" "55" "W" "L" "BP_M4_C_77".


Definition damage_7_leap_second : string :=
  damage "2016.12.31-23.59.60:000" "7" "V" "K" "BP_AK47_C_2147".

Definition damage_400 : string :=
  damage "2024.01.01-00.00.00:000" "400" "V" "K" "BP_AK47_C_2147".

Definition damage_900 : string :=
  damage "2024.01.01-00.00.00:000" "900" "V" "K" "BP_AK47_C_2147".

Definition match_55 : Match :=
  [("time", "2024.01.01-00.00.00:000"); ("log_id", "55"); ("victim", "V");
   ("killer", "K"); ("weapon", "AK47")].

Definition match_400 : Match :=
  [("time", "2024.01.01-00.00.00:000"); ("log_id", "400"); ("victim", "V");
   ("killer", "K"); ("weapon", "AK47")].

Definition midnight : datetime :=
  mk_datetime 2024 1 1 0 0 0 0 None.

Definition possess (time user : string) : string :=
  "[" +:+ time +:+ "][155]LogSquadTrace: [DedicatedServer]"
  +:+ "ASQPlayerController::Possess(): PC=" +:+ user
  +:+ " Pawn=CameraMan_C_2147 FullPath=CameraMan_C /Game/Maps/Level".

Definition unpossess (time id user : string) : string :=
  "[" +:+ time +:+ "][" +:+ id +:+ "]LogSquadTrace: [DedicatedServer]"
  +:+ "ASQPlayerController::UnPossess(): PC=" +:+ user.

(** A fresh monitor whose audit file cannot be opened. *)
Definition fresh_locked : State :=
  {| self := TKMonitor_init;
     admincam_log := {| can_open := false; written := [] |} |}.

(** A task that has read 50000 bytes of the log, and the answer of the
    file system once the log has been replaced by one of 1200 bytes. *)
Definition task_at_50000 (st : State) : Task :=
  {| engine := st;
     follower := {| f := {| handle := 0; offset := 50000 |};
                    file_size := 50000; line_counter := 1 |}%N |}.

Definition shrunk_to_1200 : Probe :=
  {| st_size := Some 1200; fresh_handle := 1; fresh_size := 1200 |}%N.

End Ex.

(** ** More of the program and notions about it *)

(** No opening bracket in the line. *)
Definition no_bracket (line : string) : bool :=
  Str.all (fun a => negb (Ascii.eqb a "[")) line.

(* lines 76-82: what [f.readline()] gives: text, or a [UnicodeDecodeError] *)
Inductive readline_result : Type :=
| Text (line : string)
| UnicodeDecodeError.

(* lines 76-84: the line the follower goes on with, [None] when the read
   gave nothing and the inner loop ends *)
Definition line_read (r : readline_result) : option string :=
  match r with
  | UnicodeDecodeError => Some "DECODE_ERROR"
  | Text EmptyString => None
  | Text line => Some line
  end.

(* lines 75-90: one pass of the inner loop over what the reads give, each
   with the size [os.fstat] would report then: the lines yielded and the
   follower's variables when the loop ends *)
Fixpoint read_cycle (reads : list (readline_result * N)) (fo : Follower)
    : list string * Follower :=
  match reads with
  | [] => ([], fo)
  | (r, cur_size) :: rest =>
      match line_read r with
      | None => ([], fo)
      | Some line =>
          let '(ls, fo') := read_cycle rest (count_line line cur_size fo) in
          (line :: ls, fo')
      end
  end.

(** The window is within its bound. *)
Definition window_bounded (st : State) : Prop :=
  (List.length (recent_damages (self st)) <= 20)%nat.


(** A time text of the log with every field on its full width, and the
    same date and time as the audit file shows it. *)
Definition log_time (Y1 Y2 Y3 Y4 m1 m2 d1 d2 H1 H2 M1 M2 S1 S2 : ascii)
    (fraction : string) : string :=
  String Y1 (String Y2 (String Y3 (String Y4 (String "."
  (String m1 (String m2 (String "."
  (String d1 (String d2 (String "-"
  (String H1 (String H2 (String "."
  (String M1 (String M2 (String "."
  (String S1 (String S2 (String ":" fraction))))))))))))))))))).

Definition shown_time (Y1 Y2 Y3 Y4 m1 m2 d1 d2 H1 H2 M1 M2 S1 S2 : ascii)
    : string :=
  String Y1 (String Y2 (String Y3 (String Y4 (String "."
  (String m1 (String m2 (String "."
  (String d1 (String d2 (String " " (String "-" (String " "
  (String H1 (String H2 (String ":"
  (String M1 (String M2 (String ":"
  (String S1 (String S2 "")))))))))))))))))))).

(** ** Posting a record *)

(** What [query_game_server] answers, as far as [post_tk] reads it. *)
Record ServerInfo : Type := mk_ServerInfo {
  info_map : string;
  info_name : string
}.

(** A field of the embed: name, value and the [inline] flag. *)
Record EmbedField : Type := mk_EmbedField {
  field_name : string;
  field_value : string;
  inline : bool
}.

Record Embed : Type := mk_Embed {
  title : string;
  fields : list EmbedField
}.

Module Post.

Definition seconds_of_day (t : datetime) : Z :=
  3600 * hour t + 60 * minute t + second t.

(** The day before and the day after a date. *)
Definition prev_day (y m d : Z) : Z * Z * Z :=
  if 1 <? d then (y, m, d - 1)
  else if 1 <? m then (y, m - 1, Time.days_in_month y (m - 1))
  else (y - 1, 12, 31).

Definition next_day (y m d : Z) : Z * Z * Z :=
  if d <? Time.days_in_month y m then (y, m, d + 1)
  else if m <? 12 then (y, m + 1, 1)
  else (y + 1, 1, 1).

(** [t.astimezone(TIMEZONE)] for an aware time [t] in UTC, where
    [utcoffset] is the offset of the zone in force at [t], in seconds and
    less than a day either way: the wall time is [t] plus the offset.
    [None] stands for the [OverflowError] of a year out of range. *)
Definition astimezone (utcoffset : Z) (t : datetime) : option datetime :=
  let total := seconds_of_day t + utcoffset in
  let '(y, m, d, secs) :=
    if total <? 0 then (prev_day (year t) (month t) (day t), total + 86400)
    else if 86400 <=? total
         then (next_day (year t) (month t) (day t), total - 86400)
         else ((year t, month t, day t), total) in
  if (1 <=? y) && (y <=? 9999)
  then Some (mk_datetime y m d (secs / 3600) (secs mod 3600 / 60) (secs mod 60)
                         (microsecond t) (tz t))
  else None.

(** [a.date() > b.date()] *)
Definition date_gt (a b : datetime) : bool :=
  (year b <? year a)
  || ((year a =? year b)
      && ((month b <? month a)
          || ((month a =? month b) && (day b <? day a)))).

(** [t.strftime("%m/%d/%Y %H:%M:%S")] *)
Definition strftime_config (t : datetime) : string :=
  Time.pad2 (month t) +:+ "/" +:+ Time.pad2 (day t) +:+ "/"
  +:+ Time.pad4 (year t) +:+ " " +:+ Time.pad2 (hour t) +:+ ":"
  +:+ Time.pad2 (minute t) +:+ ":" +:+ Time.pad2 (second t).

(** [t.strftime("%H:%M:%S")] *)
Definition strftime_clock (t : datetime) : string :=
  Time.pad2 (hour t) +:+ ":" +:+ Time.pad2 (minute t) +:+ ":"
  +:+ Time.pad2 (second t).

Section Config.

(** [config.TIMEZONE], by the offset from UTC it has at a given time, and
    [config.TIMEZONE_NAME]; the module [config] is not among the sources. *)
Variable TIMEZONE : datetime -> Z.
Variable TIMEZONE_NAME : string.

(* lines 311-334: the embed [post_tk] builds from the answer of the server
   query and the record; sending it is left to the webhook *)
Definition post_tk_embed (server_info : ServerInfo) (teamkill : TeamKill)
    : option Embed :=
  let cur_map := info_map server_info in
  let server_name := info_name server_info in
  let time_utc := time_utc teamkill in
  time_config ← astimezone (TIMEZONE time_utc) time_utc;
  let time_config_str := strftime_config time_config in
  let time_utc_str :=
    if date_gt time_utc time_config
    then strftime_clock time_utc +:+ " (+1 day)"
    else strftime_clock time_utc in
  Some {| title := "TK on " +:+ server_name;
          fields :=
            [ mk_EmbedField ("Date / Time (" +:+ TIMEZONE_NAME +:+ ")")
                            time_config_str true;
              mk_EmbedField "Time (UTC)" time_utc_str true;
              mk_EmbedField "Map" cur_map true;
              mk_EmbedField "Killer" (killer teamkill) true;
              mk_EmbedField "Victim" (victim teamkill) true;
              mk_EmbedField "Weapon" (weapon teamkill) true ] |}.

End Config.

End Post.

(** The fields of a time are those of a date and a time of day. *)
Definition valid_datetime (t : datetime) : Prop :=
  Time.valid (year t) (month t) (day t) (hour t) (minute t) (second t)
             (microsecond t) = true.

Module Ex_more.

Definition chat : string :=
  "LogSquad: Player Alice joined the game".

(** A zone five hours behind UTC all year, and one two hours ahead. *)
Definition five_behind (t : datetime) : Z := -18000.

Definition two_ahead (t : datetime) : Z := 7200.

Definition server : ServerInfo :=
  {| info_map := "Narva AAS v1"; info_name := "EU 1" |}.

(** A kill at 03:10:00 UTC on 1 March 2024, and one at 23:10:00. *)
Definition kill_at (h : Z) : TeamKill :=
  {| time_utc := mk_datetime 2024 3 1 h 10 0 0 (Some UTC);
     victim := "V"; killer := "K"; weapon := "AK47" |}.

End Ex_more.

(** * Properties *)

(** ** Strings and patterns *)

Module Str_facts.

Lemma app_nil_l (s : string) : "" +:+ s = s.
Proof. reflexivity. Qed.

Lemma app_cons a (s t : string) : String a s +:+ t = String a (s +:+ t).
Proof. reflexivity. Qed.

Lemma strip_prefix_app p s s' :
  Str.strip_prefix p s = Some s' -> s = p +:+ s'.
Proof.
  revert s; induction p as [|a p IH]; intros s H; simpl in H.
  - rewrite app_nil_l. congruence.
  - destruct s as [|b s]; [discriminate|].
    destruct (Ascii.eqb_spec a b) as [->|]; [|discriminate].
    rewrite app_cons. f_equal. auto.
Qed.

Lemma take_drop k s : Str.take k s +:+ Str.drop k s = s.
Proof.
  revert s; induction k as [|k IH]; intros [|a s]; simpl; try reflexivity.
  rewrite app_cons. f_equal. apply IH.
Qed.

Lemma take_span c k s :
  (k <= span c s)%nat ->
  Str.all (accepts c) (Str.take k s) = true
  /\ String.length (Str.take k s) = k.
Proof.
  revert s; induction k as [|k IH]; intros s H.
  - destruct s; simpl; auto.
  - destruct s as [|a s]; simpl in H; [lia|].
    destruct (accepts c a) eqn:E; [|lia].
    destruct (IH s) as [H1 H2]; [lia|].
    simpl. rewrite E, H1, H2. auto.
Qed.

Lemma app_assoc (a b c : string) : (a +:+ b) +:+ c = a +:+ (b +:+ c).
Proof.
  induction a as [|x a IH]; [reflexivity|].
  rewrite !app_cons. congruence.
Qed.

End Str_facts.

Module Re_facts.
Import Re_spec Str_facts.

(** What [match_here] accepts is a prefix of the text that the pattern
    stands for, with the groups it returns. *)
Lemma match_here_sound r : forall s m,
  match_here r s = Some m ->
  exists t rest, s = t +:+ rest /\ matches r t m.
Proof.
  induction r as [|i r IH]; intros s m H.
  - injection H as <-. exists "", s. split; [reflexivity | constructor].
  - destruct i as [l | g c mn]; simpl in H.
    + destruct (Str.strip_prefix l s) as [s'|] eqn:E; [|discriminate].
      apply strip_prefix_app in E. subst s.
      destruct (IH _ _ H) as (t & rest & -> & Hm).
      exists (l +:+ t), rest. split; [symmetry; apply app_assoc|].
      now constructor.
    + assert (Hk : forall k, (k <= span c s)%nat ->
                (fix give_back (k : nat) : option Match :=
                   let attempt :=
                     if Nat.leb mn k then match_here r (Str.drop k s) else None in
                   match attempt with
                   | Some m => Some (bind_group g (Str.take k s) m)
                   | None => match k with O => None | S k' => give_back k' end
                   end) k = Some m ->
                exists t rest, s = t +:+ rest /\ matches (Rep g c mn :: r) t m).
      { clear H. induction k as [|k IHk]; intros Hle Hk.
        - destruct (Nat.leb mn 0) eqn:Emn; [|discriminate].
          destruct (match_here r (Str.drop 0 s)) as [m'|] eqn:E; [|discriminate].
          injection Hk as <-.
          destruct (IH _ _ E) as (t & rest & Hs & Hm).
          apply Nat.leb_le in Emn.
          exists (Str.take 0 s +:+ t), rest. split.
          + rewrite app_assoc, <- Hs. symmetry. apply take_drop.
          + destruct (take_span c 0 s Hle). constructor; auto; lia.
        - destruct (if Nat.leb mn (S k) then match_here r (Str.drop (S k) s)
                    else None) as [m'|] eqn:E.
          + injection Hk as <-.
            destruct (Nat.leb mn (S k)) eqn:Emn; [|discriminate].
            destruct (IH _ _ E) as (t & rest & Hs & Hm).
            apply Nat.leb_le in Emn.
            exists (Str.take (S k) s +:+ t), rest. split.
            * rewrite app_assoc, <- Hs. symmetry. apply take_drop.
            * destruct (take_span c (S k) s Hle) as [H1 H2].
              constructor; [exact H1 | | exact Hm].
              apply (Nat.le_trans _ _ _ Emn), Nat.eq_le_incl.
              symmetry. exact H2.
          + apply IHk; [lia | exact Hk]. }
      apply (Hk (span c s)); [lia | exact H].
Qed.

(** What [search] returns stands somewhere in the line. *)
Lemma search_sound r : forall s m,
  search r s = Some m ->
  exists pre t rest, s = pre +:+ t +:+ rest /\ matches r t m.
Proof.
  induction s as [|a s IH]; intros m H; simpl in H.
  - destruct (match_here r "") as [m'|] eqn:E; [|discriminate].
    injection H as <-. destruct (match_here_sound _ _ _ E) as (t & rest & Hs & Hm).
    exists "", t, rest. auto.
  - destruct (match_here r (String a s)) as [m'|] eqn:E.
    + injection H as <-. destruct (match_here_sound _ _ _ E) as (t & rest & Hs & Hm).
      exists "", t, rest. auto.
    + destruct (IH _ H) as (pre & t & rest & -> & Hm).
      exists (String a pre), t, rest. auto.
Qed.

End Re_facts.


Module Pattern_facts.
Import Re_spec Str_facts Re_facts.

Lemma matches_nil_inv s m : matches [] s m -> s = "" /\ m = [].
Proof. inversion 1; auto. Qed.

Lemma matches_lit_inv l r s m :
  matches (Lit l :: r) s m -> exists s', s = l +:+ s' /\ matches r s' m.
Proof. inversion 1; subst; eauto. Qed.

Lemma matches_rep_inv g c mn r s m :
  matches (Rep g c mn :: r) s m ->
  exists t s' m',
    s = t +:+ s' /\ m = bind_group g t m'
    /\ Str.all (accepts c) t = true /\ (mn <= String.length t)%nat
    /\ matches r s' m'.
Proof. inversion 1; subst. eexists _, _, _. eauto. Qed.

(** Joining pieces and then appending is joining onto what is appended. *)
Lemma join_app (l : list string) (rest : string) :
  fold_right append "" l +:+ rest = fold_right append rest l.
Proof.
  induction l as [|x l IH]; [reflexivity|].
  simpl. rewrite app_assoc. congruence.
Qed.

Lemma join_split (l1 l2 : list string) (rest : string) :
  fold_right append rest (l1 ++ l2)
  = fold_right append "" l1 +:+ fold_right append rest l2.
Proof. now rewrite join_app, fold_right_app. Qed.

Ltac lit H := apply matches_lit_inv in H as (? & -> & H).
Ltac rep H t Hall Hlen :=
  apply matches_rep_inv in H as (t & ? & ? & -> & -> & Hall & Hlen & H).



(** The shape of a line the teamkill pattern is found in. *)
Lemma teamkill_line_shape line tk :
  search teamkill_re line = Some tk ->
  exists pre id mid1 mid2 post,
    tk = [("log_id", id)]
    /\ line = pre +:+ "[" +:+ id +:+ "]" +:+ mid1 +:+ "LogSquadScorePoints:"
              +:+ mid2 +:+ "TeamKilled" +:+ post
    /\ Str.all Str.is_digit id = true
    /\ (1 <= String.length id)%nat.
Proof.
  intros H. apply search_sound in H as (pre & t & rest & -> & Hm).
  unfold teamkill_re in Hm.
  lit Hm. rep Hm lid Hid Hid'. lit Hm. rep Hm mid1 H1 H1'. lit Hm.
  rep Hm mid2 H2 H2'. lit Hm.
  apply matches_nil_inv in Hm as [-> ->].
  exists pre, lid, mid1, mid2, rest.
  split; [reflexivity|]. split; [|auto].
  apply (f_equal (append pre)).
  exact (join_app ["["; lid; "]"; mid1; "LogSquadScorePoints:"; mid2;
                   "TeamKilled"] rest).
Qed.

End Pattern_facts.

(** ** The methods, as equations *)

Module Monitor_facts.

Ltac run := cbv [mbind M_bind mret M_ret get_self put_self modify_self raise
                 strptime with_self].

Lemma match_log_ids_eq team_kill dmgs st :
  match_log_ids team_kill dmgs st =
  match find_damage (group team_kill "log_id") dmgs with
  | None => (Return None, st)
  | Some dmg =>
      match Time.strptime (group dmg "time") with
      | Some t =>
          (Return (Some (record_of dmg t)),
           with_self (mark_seen (group team_kill "log_id") (self st)) st)
      | None => (Raise ValueError, st)
      end
  end.
Proof.
  induction dmgs as [|dmg rest IH]; [reflexivity|].
  simpl. destruct (String.eqb _ _); [|exact IH].
  run. destruct (Time.strptime _); reflexivity.
Qed.

Lemma _match_teamkill_eq line team_kill st :
  search teamkill_re line = Some team_kill ->
  _match_teamkill line st =
  let id := group team_kill "log_id" in
  let t := note_log_id id (self st) in
  if decide (id ∈ seen_tks t) then (Return None, with_self t st)
  else match_log_ids team_kill (recent_damages t) (with_self t st).
Proof.
  intros H. unfold _match_teamkill. rewrite H. run.
  unfold note_log_id, wraps.
  destruct (_ <? _); simpl; destruct (decide _); reflexivity.
Qed.

Lemma _match_teamkill_none line st :
  search teamkill_re line = None -> _match_teamkill line st = (Return None, st).
Proof. intros H. unfold _match_teamkill. now rewrite H. Qed.

Lemma with_self_self st : with_self (self st) st = st.
Proof. now destruct st. Qed.

Lemma self_with_self t st : self (with_self t st) = t.
Proof. reflexivity. Qed.

Lemma seen_mark_seen id t : seen_tks (mark_seen id t) = {[ id ]} ∪ seen_tks t.
Proof. reflexivity. Qed.

Ltac after := cbn [snd fst]; rewrite ?self_with_self, ?seen_mark_seen.

Lemma _match_damage_eq line st :
  _match_damage line st =
  match search damage_re line with
  | Some dmg => (Return true, with_self (with_damage dmg (self st)) st)
  | None => (Return false, st)
  end.
Proof. unfold _match_damage. destruct (search damage_re line); reflexivity. Qed.

Lemma log_admincam_change_eq c m st :
  log_admincam_change (change_text c) m st =
  match Time.strptime (group m "time") with
  | Some t =>
      if can_open (admincam_log st)
      then (Return true, with_entry (audit_entry c m t) st)
      else (Raise OSError, st)
  | None => (Raise ValueError, st)
  end.
Proof.
  unfold log_admincam_change. run.
  destruct (Time.strptime _); [|reflexivity].
  unfold append_admincam_log. destruct (can_open _); reflexivity.
Qed.

Lemma _match_admincam_eq line st :
  _match_admincam line st =
  match admincam_change line with
  | Some (c, m) =>
      if admincam_takes line (self st)
      then log_admincam_change (change_text c) m
             (with_self (apply_change c (group m "user") (self st)) st)
      else (Return false, st)
  | None => (Return false, st)
  end.
Proof.
  unfold _match_admincam, admincam_takes, admincam_change.
  destruct (search possess_re line); [reflexivity|].
  destruct (search unpossess_re line); [|reflexivity].
  run. unfold bool_decide. destruct (decide_rel _ _ _); try reflexivity.
  all: destruct (decide _); try reflexivity; contradiction.
Qed.

(** A line the admin-camera handler does not take leaves everything as it
    was. *)
Lemma _match_admincam_declines line st :
  admincam_takes line (self st) = false ->
  _match_admincam line st = (Return false, st).
Proof.
  intros H. rewrite _match_admincam_eq, H.
  destruct (admincam_change line) as [[c m]|]; reflexivity.
Qed.

(** A line it takes is answered [True], unless an error ends the method;
    the set of users is updated either way. *)
Lemma _match_admincam_takes line st :
  admincam_takes line (self st) = true ->
  exists c m,
    admincam_change line = Some (c, m)
    /\ _match_admincam line st =
       let st' := with_self (apply_change c (group m "user") (self st)) st in
       match Time.strptime (group m "time") with
       | Some t =>
           if can_open (admincam_log st)
           then (Return true, with_entry (audit_entry c m t) st')
           else (Raise OSError, st')
       | None => (Raise ValueError, st')
       end.
Proof.
  intros H. rewrite _match_admincam_eq, H.
  unfold admincam_takes in H.
  destruct (admincam_change line) as [[c m]|]; [|discriminate].
  exists c, m. split; [reflexivity|].
  now rewrite log_admincam_change_eq.
Qed.

Lemma parse_line_eq line st :
  parse_line line st =
  if admincam_takes line (self st) then
    match _match_admincam line st with
    | (Return _, st') => (Return None, st')
    | (Raise e, st') => (Raise e, st')
    end
  else
    match search damage_re line with
    | Some dmg => (Return None, with_self (with_damage dmg (self st)) st)
    | None => _match_teamkill line st
    end.
Proof.
  unfold parse_line. run.
  destruct (admincam_takes line (self st)) eqn:E.
  - destruct (_match_admincam_takes _ _ E) as (c & m & _ & ->).
    cbv zeta. destruct (Time.strptime _); [|reflexivity].
    destruct (can_open _); reflexivity.
  - rewrite (_match_admincam_declines _ _ E), _match_damage_eq.
    destruct (search damage_re line); reflexivity.
Qed.

End Monitor_facts.

(** ** The teamkill correlator *)

Module Correlator_facts.
Import Monitor_facts.

Lemma note_log_id_last id t : last_log_id (note_log_id id t) = Str.int id.
Proof. reflexivity. Qed.

Lemma note_log_id_damages id t :
  recent_damages (note_log_id id t) = recent_damages t.
Proof. unfold note_log_id. now destruct (wraps id t). Qed.

Lemma note_log_id_active id t :
  active_admin_cam_users (note_log_id id t) = active_admin_cam_users t.
Proof. unfold note_log_id. now destruct (wraps id t). Qed.

Lemma note_log_id_seen id t :
  seen_tks (note_log_id id t) = if wraps id t then ∅ else seen_tks t.
Proof. unfold note_log_id. now destruct (wraps id t). Qed.

(** The identifier just recorded does not make the test fire. *)
Lemma note_log_id_settles id t : wraps id (note_log_id id t) = false.
Proof. unfold wraps. rewrite note_log_id_last. lia. Qed.

Lemma wraps_spec id t : wraps id t = true <-> Str.int id + 500 < last_log_id t.
Proof. unfold wraps. apply Z.ltb_lt. Qed.

(** What the correlator does with a line of the teamkill pattern, by
    cases on the set, the window and the time text. *)
Lemma _match_teamkill_cases line team_kill st :
  search teamkill_re line = Some team_kill ->
  let id := group team_kill "log_id" in
  let t := note_log_id id (self st) in
  _match_teamkill line st =
  if decide (id ∈ seen_tks t) then (Return None, with_self t st)
  else match find_damage id (recent_damages (self st)) with
       | None => (Return None, with_self t st)
       | Some dmg =>
           match Time.strptime (group dmg "time") with
           | Some tm =>
               (Return (Some (record_of dmg tm)), with_self (mark_seen id t) st)
           | None => (Raise ValueError, with_self t st)
           end
       end.
Proof.
  intros H. rewrite (_match_teamkill_eq _ _ _ H). cbv zeta.
  destruct (decide _); [reflexivity|].
  rewrite match_log_ids_eq, note_log_id_damages.
  destruct (find_damage _ _); [|reflexivity].
  destruct (Time.strptime _); reflexivity.
Qed.

Lemma find_damage_Some id dmgs dmg :
  find_damage id dmgs = Some dmg ->
  In dmg dmgs /\ group dmg "log_id" = id.
Proof.
  intros H. apply find_some in H as [H1 H2].
  split; [exact H1 | now apply String.eqb_eq].
Qed.

Lemma find_damage_None id dmgs :
  find_damage id dmgs = None <->
  forall dmg, In dmg dmgs -> group dmg "log_id" <> id.
Proof.
  split.
  - intros H dmg Hin Heq.
    apply (find_none _ _ H) in Hin. apply String.eqb_neq in Hin. auto.
  - intros H. destruct (find_damage id dmgs) as [dmg|] eqn:E; [|reflexivity].
    apply find_damage_Some in E as [H1 H2]. now apply H in H1.
Qed.

(** Whatever becomes of the line, its identifier is recorded. *)
Lemma _match_teamkill_last line team_kill st :
  search teamkill_re line = Some team_kill ->
  last_log_id (self (snd (_match_teamkill line st)))
  = Str.int (group team_kill "log_id").
Proof.
  intros H. rewrite (_match_teamkill_cases _ _ _ H).
  destruct (decide _); [reflexivity|].
  destruct (find_damage _ _); [|reflexivity].
  destruct (Time.strptime _); reflexivity.
Qed.

(** Nothing leaves [seen_tks] while the wraparound test does not fire. *)
Lemma parse_line_seen_grows line st :
  (forall team_kill,
     search teamkill_re line = Some team_kill ->
     wraps (group team_kill "log_id") (self st) = false) ->
  seen_tks (self st) ⊆ seen_tks (self (snd (parse_line line st))).
Proof.
  intros Hw. rewrite parse_line_eq.
  destruct (admincam_takes line (self st)) eqn:E.
  - destruct (_match_admincam_takes _ _ E) as (c & m & _ & ->). cbv zeta.
    destruct (Time.strptime _); [destruct (can_open _)|]; destruct c; reflexivity.
  - destruct (search damage_re line); [reflexivity|].
    destruct (search teamkill_re line) as [team_kill|] eqn:Et;
      [|now rewrite (_match_teamkill_none _ _ Et)].
    rewrite (_match_teamkill_cases _ _ _ Et).
    assert (Hs : seen_tks (note_log_id (group team_kill "log_id") (self st))
                 = seen_tks (self st))
      by now rewrite note_log_id_seen, (Hw _ eq_refl).
    destruct (decide _); [after; now rewrite Hs|].
    destruct (find_damage _ _); [|after; now rewrite Hs].
    destruct (Time.strptime _); after; rewrite Hs; set_solver.
Qed.

Lemma tk_follow_seen_grows lines : forall st,
  no_wraparound lines st ->
  seen_tks (self st) ⊆ seen_tks (self (snd (tk_follow lines st))).
Proof.
  induction lines as [|line lines IH]; intros st Hnw; [reflexivity|].
  destruct Hnw as [Hline Hrest]. cbn [tk_follow].
  pose proof (parse_line_seen_grows line st Hline) as Hstep.
  destruct (parse_line line st) as [[tk|e] st1]; [|exact Hstep].
  specialize (IH st1 Hrest).
  destruct (tk_follow lines st1) as [[tks r] st2].
  cbn [snd] in *. set_solver.
Qed.

Lemma note_log_id_keeps_out id t :
  id ∉ seen_tks t -> id ∉ seen_tks (note_log_id id t).
Proof. intros H. rewrite note_log_id_seen. destruct (wraps _ _); set_solver. Qed.

(** A line whose identifier is new and found in the window is answered
    from the first damage found, when its time text reads. *)
Lemma _match_teamkill_hit line team_kill st dmg tm :
  search teamkill_re line = Some team_kill ->
  group team_kill "log_id" ∉ seen_tks (self st) ->
  find_damage (group team_kill "log_id") (recent_damages (self st)) = Some dmg ->
  Time.strptime (group dmg "time") = Some tm ->
  _match_teamkill line st
  = (Return (Some (record_of dmg tm)),
     with_self (mark_seen (group team_kill "log_id")
                  (note_log_id (group team_kill "log_id") (self st))) st).
Proof.
  intros H Hseen Hfind Htm.
  rewrite (_match_teamkill_cases _ _ _ H), Hfind, Htm.
  apply note_log_id_keeps_out in Hseen.
  destruct (decide _); [contradiction | reflexivity].
Qed.

End Correlator_facts.

Section Correlator.
Import Monitor_facts Correlator_facts.

(** C3.  A line of the teamkill pattern records its identifier as
    [last_log_id] whatever happens to it afterwards (duplicate, no damage
    found, record built, error).  When the identifier plus 500 is below the
    [last_log_id] it meets, [seen_tks] is emptied before the duplicate
    check: the method goes on as the loop over the window does on the
    emptied set, so the line is handled as a new one even if its
    identifier was in the set.  When the test does not fire, nothing
    leaves the set. *)
Theorem wraparound_then_last_log_id line team_kill st :
  search teamkill_re line = Some team_kill ->
  let id := group team_kill "log_id" in
  let after := _match_teamkill line st in
  last_log_id (self (snd after)) = Str.int id
  /\ (Str.int id + 500 < last_log_id (self st) ->
      after = match_log_ids team_kill (recent_damages (self st))
                (with_self (set_last_log_id (Str.int id)
                              (set_seen_tks ∅ (self st))) st)
      /\ seen_tks (self (snd after)) ⊆ {[ id ]})
  /\ (~ Str.int id + 500 < last_log_id (self st) ->
      seen_tks (self st) ⊆ seen_tks (self (snd after))).
Proof.
  intros H id after. subst after.
  split; [apply (_match_teamkill_last _ _ _ H)|].
  rewrite (_match_teamkill_cases _ _ _ H). fold id.
  split.
  - intros Hw. apply wraps_spec in Hw.
    assert (Hs : seen_tks (note_log_id id (self st)) = ∅)
      by now rewrite note_log_id_seen, Hw.
    assert (Ht : note_log_id id (self st)
                 = set_last_log_id (Str.int id) (set_seen_tks ∅ (self st)))
      by (unfold note_log_id; now rewrite Hw).
    destruct (decide _) as [Hin|_]; [rewrite Hs in Hin; set_solver|].
    rewrite match_log_ids_eq. fold id. rewrite <- Ht. split.
    + destruct (find_damage _ _); [|reflexivity].
      destruct (Time.strptime _); reflexivity.
    + destruct (find_damage _ _); [|after; rewrite Hs; set_solver].
      destruct (Time.strptime _); after; rewrite Hs; set_solver.
  - intros Hw.
    assert (Hs : seen_tks (note_log_id id (self st)) = seen_tks (self st)).
    { rewrite note_log_id_seen. destruct (wraps id (self st)) eqn:E; [|reflexivity].
      apply wraps_spec in E. contradiction. }
    destruct (decide _); [after; now rewrite Hs|].
    destruct (find_damage _ _); [|after; now rewrite Hs].
    destruct (Time.strptime _); after; rewrite Hs; set_solver.
Qed.


(** C2.  Once a line of the teamkill pattern has been answered with a
    record, its identifier is in [seen_tks], and a later line of the
    pattern with the same identifier text is answered [None]: at once; at
    any later state in which nothing has left [seen_tks] and whose
    [last_log_id] does not make the wraparound test fire; and so after any
    lines the task handles in between, as long as neither they nor the
    later line make the test fire. *)
Theorem correlation_idempotent line team_kill st tk st1 :
  search teamkill_re line = Some team_kill ->
  _match_teamkill line st = (Return (Some tk), st1) ->
  let id := group team_kill "log_id" in
  id ∈ seen_tks (self st1)
  /\ (forall line2 team_kill2,
        search teamkill_re line2 = Some team_kill2 ->
        group team_kill2 "log_id" = id ->
        exists st2, _match_teamkill line2 st1 = (Return None, st2))
  /\ (forall st2 line2 team_kill2,
        search teamkill_re line2 = Some team_kill2 ->
        group team_kill2 "log_id" = id ->
        seen_tks (self st1) ⊆ seen_tks (self st2) ->
        ~ Str.int id + 500 < last_log_id (self st2) ->
        exists st3, _match_teamkill line2 st2 = (Return None, st3))
  /\ (forall lines line2 team_kill2,
        search teamkill_re line2 = Some team_kill2 ->
        group team_kill2 "log_id" = id ->
        no_wraparound lines st1 ->
        let st2 := snd (tk_follow lines st1) in
        ~ Str.int id + 500 < last_log_id (self st2) ->
        exists st3, _match_teamkill line2 st2 = (Return None, st3)).
Proof.
  intros H Hrun id.
  rewrite (_match_teamkill_cases _ _ _ H) in Hrun. fold id in Hrun.
  assert (Hst1 : id ∈ seen_tks (self st1) /\ last_log_id (self st1) = Str.int id).
  { destruct (decide _); [discriminate|].
    destruct (find_damage _ _); [|discriminate].
    destruct (Time.strptime _); [|discriminate].
    injection Hrun as _ <-. after. split; [set_solver | reflexivity]. }
  destruct Hst1 as [Hin Hlast]. clear Hrun.
  assert (Hlater : forall st2 line2 team_kill2,
            search teamkill_re line2 = Some team_kill2 ->
            group team_kill2 "log_id" = id ->
            seen_tks (self st1) ⊆ seen_tks (self st2) ->
            ~ Str.int id + 500 < last_log_id (self st2) ->
            exists st3, _match_teamkill line2 st2 = (Return None, st3)).
  { intros st2 line2 team_kill2 H2 Hid Hsub Hw.
    rewrite (_match_teamkill_cases _ _ _ H2), Hid.
    assert (Hs : id ∈ seen_tks (note_log_id id (self st2))).
    { rewrite note_log_id_seen.
      destruct (wraps id (self st2)) eqn:E; [|set_solver].
      apply wraps_spec in E. contradiction. }
    destruct (decide _) as [_|Hn]; [eauto | exfalso; exact (Hn Hs)]. }
  split; [exact Hin|]. split; [|split; [exact Hlater|]].
  - intros line2 team_kill2 H2 Hid.
    apply (Hlater st1 line2 team_kill2 H2 Hid); [set_solver | lia].
  - intros lines line2 team_kill2 H2 Hid Hnw st2 Hw.
    apply (Hlater st2 line2 team_kill2 H2 Hid); [|exact Hw].
    now apply tk_follow_seen_grows.
Qed.

Lemma find_damage_remember id dmg dmgs :
  find_damage id dmgs = None ->
  group dmg "log_id" = id ->
  find_damage id (remember_damage dmg dmgs) = Some dmg.
Proof.
  intros Hnone Hid.
  assert (Happ : forall l, find_damage id l = None ->
                           find_damage id (l ++ [dmg]) = Some dmg).
  { induction l as [|x l IH]; simpl; intros Hl.
    - apply String.eqb_eq in Hid. now rewrite Hid.
    - destruct (String.eqb _ _); [discriminate | auto]. }
  destruct dmgs as [|x l]; [exact (Happ [] Hnone)|].
  unfold remember_damage. destruct (Nat.ltb _ _); [|auto].
  simpl in Hnone |- *. destruct (String.eqb _ _); [discriminate | auto].
Qed.

(** C4.  A line of the teamkill pattern whose identifier is not in
    [seen_tks] and is the [log_id] of no buffered damage is answered [None]
    and its identifier is not added to [seen_tks]; the set is as it was, or
    empty when the wraparound test fired.  If a damage line with that
    [log_id] and a time text that reads is buffered next, the same teamkill
    line is then answered with the record of that damage. *)
Theorem uncorrelated_not_marked line team_kill st :
  search teamkill_re line = Some team_kill ->
  let id := group team_kill "log_id" in
  id ∉ seen_tks (self st) ->
  find_damage id (recent_damages (self st)) = None ->
  exists st1,
    _match_teamkill line st = (Return None, st1)
    /\ (id ∉ seen_tks (self st1))
    /\ seen_tks (self st1) = (if wraps id (self st) then ∅ else seen_tks (self st))
    /\ (forall dline dmg tm,
          search damage_re dline = Some dmg ->
          group dmg "log_id" = id ->
          Time.strptime (group dmg "time") = Some tm ->
          exists st2 st3,
            _match_damage dline st1 = (Return true, st2)
            /\ _match_teamkill line st2 = (Return (Some (record_of dmg tm)), st3)).
Proof.
  intros H id Hseen Hfind.
  rewrite (_match_teamkill_cases _ _ _ H). fold id. rewrite Hfind.
  assert (Hs : id ∉ seen_tks (note_log_id id (self st))).
  { rewrite note_log_id_seen. destruct (wraps _ _); set_solver. }
  destruct (decide _) as [Hin|_]; [contradiction|].
  eexists. split; [reflexivity|]. after.
  split; [exact Hs|]. split; [apply note_log_id_seen|].
  intros dline dmg tm Hd Hid Htm.
  rewrite _match_damage_eq, Hd. eexists _, _. split; [reflexivity|].
  apply (_match_teamkill_hit _ _ _ _ _ H); fold id; after.
  - exact Hs.
  - unfold with_damage. cbn [recent_damages set_recent_damages].
    rewrite note_log_id_damages. now apply find_damage_remember.
  - exact Htm.
Qed.

(** C10.  Two lines of the teamkill pattern whose identifier texts differ
    but read as the same number: [last_log_id] and the wraparound test
    go by the number and do not tell them apart, while the duplicate check
    and the lookup in the window go by the text and do. *)
Theorem log_id_text_or_number line1 line2 tk1 tk2 st :
  search teamkill_re line1 = Some tk1 ->
  search teamkill_re line2 = Some tk2 ->
  let a := group tk1 "log_id" in
  let b := group tk2 "log_id" in
  Str.int a = Str.int b ->
  a <> b ->
  last_log_id (self (snd (_match_teamkill line1 st)))
  = last_log_id (self (snd (_match_teamkill line2 st)))
  /\ wraps a (self st) = wraps b (self st)
  /\ (a ∈ seen_tks (self st) -> b ∉ seen_tks (self st) ->
      wraps a (self st) = false ->
      fst (_match_teamkill line1 st) = Return None
      /\ _match_teamkill line2 st
         = match_log_ids tk2 (recent_damages (self st))
             (with_self (set_last_log_id (Str.int b) (self st)) st))
  /\ (forall dmg tm,
        a ∉ seen_tks (self st) -> b ∉ seen_tks (self st) ->
        find_damage a (recent_damages (self st)) = Some dmg ->
        Time.strptime (group dmg "time") = Some tm ->
        find_damage b (recent_damages (self st)) = None ->
        fst (_match_teamkill line1 st) = Return (Some (record_of dmg tm))
        /\ fst (_match_teamkill line2 st) = Return None).
Proof.
  intros H1 H2 a b Hint Hne.
  pose proof (_match_teamkill_last _ _ st H1) as L1.
  pose proof (_match_teamkill_last _ _ st H2) as L2.
  assert (Hw : wraps a (self st) = wraps b (self st))
    by (unfold wraps; now rewrite Hint).
  split; [fold a in L1; fold b in L2; congruence|].
  split; [exact Hw|]. split.
  - intros Ha Hb Hnw.
    rewrite (_match_teamkill_cases _ _ _ H1), (_match_teamkill_eq _ _ _ H2).
    fold a b. cbv zeta.
    rewrite !note_log_id_seen, <- Hw, Hnw.
    destruct (decide (a ∈ _)) as [_|Hn]; [|contradiction].
    destruct (decide (b ∈ _)) as [Hin|_]; [contradiction|].
    split; [reflexivity|].
    rewrite note_log_id_damages. unfold note_log_id.
    now rewrite <- Hw, Hnw.
  - intros dmg tm Ha Hb Hfa Htm Hfb.
    rewrite (_match_teamkill_cases _ _ _ H1), (_match_teamkill_cases _ _ _ H2).
    fold a b. rewrite Hfa, Hfb, Htm, !note_log_id_seen.
    destruct (decide (a ∈ _)) as [Hin|_];
      [destruct (wraps a _); set_solver|].
    destruct (decide (b ∈ _)); split; reflexivity.
Qed.

End Correlator.

Section Correlator_examples.
Import Monitor_facts Correlator_facts.

Ltac compute_eq := vm_compute; reflexivity.
Ltac compute_neq := vm_compute; congruence.



(** The record comes from the oldest damage with the identifier, not from
    any: with two of them buffered, the victim is the first one's. *)
Example correlate_takes_the_oldest :
  let st := Ex.fed [Ex.damage_55; Ex.damage_55_again] in
  (exists dmg, In dmg (recent_damages (self st))
               /\ group dmg "log_id" = "55" /\ group dmg "victim" = "W")
  /\ option_map victim
       (match fst (_match_teamkill (Ex.teamkill "55") st) with
        | Return r => r
        | Raise _ => None
        end) = Some "V".
Proof.
  split; [|compute_eq].
  eexists. split; [right; left; compute_eq|]. split; reflexivity.
Qed.

(** The kill with identifier 55 is reported once; the same teamkill line
    gets nothing when it comes again, at once or after a possess line and a
    teamkill line with identifier 60. *)
Lemma correlation_idempotent_witness :
  let st := Ex.fed [Ex.damage_55] in
  let st1 := snd (_match_teamkill (Ex.teamkill "55") st) in
  let between := [Ex.possess "2024.01.01-00.00.03:000" "Alice"; Ex.teamkill "60"] in
  _match_teamkill (Ex.teamkill "55") st
  = (Return (Some (record_of Ex.match_55 Ex.midnight)), st1)
  /\ "55" ∈ seen_tks (self st1)
  /\ (exists st2, _match_teamkill (Ex.teamkill "55") st1 = (Return None, st2))
  /\ no_wraparound between st1
  /\ (exists st3,
        _match_teamkill (Ex.teamkill "55") (snd (tk_follow between st1))
        = (Return None, st3)).
Proof.
  intros st st1 between.
  assert (H1 : search teamkill_re (Ex.teamkill "55") = Some [("log_id", "55")])
    by compute_eq.
  assert (H2 : _match_teamkill (Ex.teamkill "55") st
               = (Return (Some (record_of Ex.match_55 Ex.midnight)), st1))
    by compute_eq.
  assert (Hnw : no_wraparound between st1).
  { split; [intros team_kill Hs; vm_compute in Hs; discriminate|].
    split; [|exact I].
    intros team_kill Hs. vm_compute in Hs. injection Hs as <-. compute_eq. }
  destruct (correlation_idempotent _ _ _ _ _ H1 H2) as (Hin & Hnext & _ & Hruns).
  split; [exact H2|]. split; [exact Hin|].
  split; [exact (Hnext (Ex.teamkill "55") [("log_id", "55")] H1 eq_refl)|].
  split; [exact Hnw|].
  apply (Hruns between (Ex.teamkill "55") [("log_id", "55")] H1 eq_refl Hnw).
  vm_compute. discriminate.
Defined.

(** C2, as stated, fails: a line of the teamkill pattern whose identifier
    is new and is the [log_id] of a buffered damage may produce no record.
    Here the buffered time text has the second 60, which the format
    accepts and [datetime] refuses. *)
Lemma exactly_one_record_fails :
  ~ (forall line team_kill st dmg,
       search teamkill_re line = Some team_kill ->
       group team_kill "log_id" ∉ seen_tks (self st) ->
       In dmg (recent_damages (self st)) ->
       group dmg "log_id" = group team_kill "log_id" ->
       exists tk st', _match_teamkill line st = (Return (Some tk), st')).
Proof.
  intros claim.
  destruct (claim (Ex.teamkill "7") [("log_id", "7")]
              (Ex.fed [Ex.damage_7_leap_second])
              [("time", "2016.12.31-23.59.60:000"); ("log_id", "7");
               ("victim", "V"); ("killer", "K"); ("weapon", "AK47")])
    as (tk & st' & Hrun).
  - compute_eq.
  - compute_neq.
  - left. compute_eq.
  - reflexivity.
  - assert (E : fst (_match_teamkill (Ex.teamkill "7")
                       (Ex.fed [Ex.damage_7_leap_second]))
                = Raise ValueError) by compute_eq.
    rewrite Hrun in E. discriminate.
Qed.

(** The example of the spec: [last_log_id] is 1000 and the line has the
    identifier 400, which is in [seen_tks] and still buffered.  The set is
    emptied, the line is answered with a record again, and [last_log_id]
    becomes 400. *)
Lemma wraparound_then_last_log_id_witness :
  let st := Ex.fed [Ex.damage_400; Ex.teamkill "400"; Ex.teamkill "1000"] in
  let after := _match_teamkill (Ex.teamkill "400") st in
  search teamkill_re (Ex.teamkill "400") = Some [("log_id", "400")]
  /\ last_log_id (self st) = 1000
  /\ "400" ∈ seen_tks (self st)
  /\ last_log_id (self (snd after)) = 400
  /\ fst after = Return (Some (record_of Ex.match_400 Ex.midnight))
  /\ seen_tks (self (snd after)) ⊆ {[ "400" ]}.
Proof.
  intros st after.
  assert (H1 : search teamkill_re (Ex.teamkill "400") = Some [("log_id", "400")])
    by compute_eq.
  destruct (wraparound_then_last_log_id _ _ st H1) as (Hlast & Hwrap & _).
  destruct Hwrap as [Hrun Hseen]; [vm_compute; reflexivity|].
  split; [exact H1|]. split; [compute_eq|]. split; [compute_eq|].
  split; [exact Hlast|]. split; [|exact Hseen].
  unfold after. rewrite Hrun. compute_eq.
Defined.

Lemma uncorrelated_not_marked_witness :
  search teamkill_re (Ex.teamkill "55") = Some [("log_id", "55")]
  /\ ("55" ∉ seen_tks (self Ex.fresh))
  /\ find_damage "55" (recent_damages (self Ex.fresh)) = None
  /\ exists st1 st2 st3,
       _match_teamkill (Ex.teamkill "55") Ex.fresh = (Return None, st1)
       /\ ("55" ∉ seen_tks (self st1))
       /\ _match_damage Ex.damage_55 st1 = (Return true, st2)
       /\ _match_teamkill (Ex.teamkill "55") st2
          = (Return (Some (record_of Ex.match_55 Ex.midnight)), st3).
Proof.
  assert (H1 : search teamkill_re (Ex.teamkill "55") = Some [("log_id", "55")])
    by compute_eq.
  assert (H2 : "55" ∉ seen_tks (self Ex.fresh)) by compute_neq.
  assert (H3 : find_damage "55" (recent_damages (self Ex.fresh)) = None)
    by reflexivity.
  destruct (uncorrelated_not_marked _ _ _ H1 H2 H3)
    as (st1 & Hrun & Hout & _ & Hlater).
  destruct (Hlater Ex.damage_55 Ex.match_55 Ex.midnight)
    as (st2 & st3 & Hd & Hagain); [compute_eq | reflexivity | compute_eq |].
  split; [exact H1|]. split; [exact H2|]. split; [exact H3|].
  exists st1, st2, st3. auto.
Defined.

(** C4, as stated, fails: [seen_tks] does not stay as it was when the
    wraparound test fires.  After a kill with identifier 900 and a teamkill
    line with identifier 1000, a teamkill line with identifier 400 and no
    buffered damage empties the set. *)
Lemma seen_tks_unchanged_fails :
  ~ (forall line team_kill st,
       search teamkill_re line = Some team_kill ->
       group team_kill "log_id" ∉ seen_tks (self st) ->
       find_damage (group team_kill "log_id") (recent_damages (self st)) = None ->
       exists st',
         _match_teamkill line st = (Return None, st')
         /\ seen_tks (self st') = seen_tks (self st)).
Proof.
  intros claim.
  set (st := Ex.fed [Ex.damage_900; Ex.teamkill "900"; Ex.teamkill "1000"]).
  destruct (claim (Ex.teamkill "400") [("log_id", "400")] st)
    as (st' & Hrun & Hsame).
  - compute_eq.
  - compute_neq.
  - compute_eq.
  - assert (Hin : "900" ∈ seen_tks (self st)) by compute_eq.
    assert (Hout : "900" ∉ seen_tks
                     (self (snd (_match_teamkill (Ex.teamkill "400") st))))
      by compute_neq.
    rewrite Hrun in Hout. cbn [snd] in Hout. rewrite Hsame in Hout.
    contradiction.
Qed.

(** The identifiers [400] and [0400]: the same number, two texts.  After a
    kill with identifier [400], the line with [400] is a duplicate and the
    line with [0400] is not; with the damage [400] buffered and nothing
    seen, the line with [400] gets the record and the line with [0400]
    gets none; both leave 400 as [last_log_id]. *)
Lemma log_id_text_or_number_witness :
  let st := Ex.fed [Ex.damage_400; Ex.teamkill "400"] in
  let st' := Ex.fed [Ex.damage_400] in
  Str.int "400" = Str.int "0400"
  /\ "400" <> "0400"
  /\ last_log_id (self (snd (_match_teamkill (Ex.teamkill "400") st)))
     = last_log_id (self (snd (_match_teamkill (Ex.teamkill "0400") st)))
  /\ "400" ∈ seen_tks (self st)
  /\ fst (_match_teamkill (Ex.teamkill "400") st) = Return None
  /\ _match_teamkill (Ex.teamkill "0400") st
     = match_log_ids [("log_id", "0400")] (recent_damages (self st))
         (with_self (set_last_log_id 400 (self st)) st)
  /\ fst (_match_teamkill (Ex.teamkill "400") st')
     = Return (Some (record_of Ex.match_400 Ex.midnight))
  /\ fst (_match_teamkill (Ex.teamkill "0400") st') = Return None.
Proof.
  intros st st'.
  assert (H1 : search teamkill_re (Ex.teamkill "400") = Some [("log_id", "400")])
    by compute_eq.
  assert (H2 : search teamkill_re (Ex.teamkill "0400") = Some [("log_id", "0400")])
    by compute_eq.
  assert (Hint : Str.int "400" = Str.int "0400") by reflexivity.
  assert (Hne : "400" <> "0400") by discriminate.
  destruct (log_id_text_or_number _ _ _ _ st H1 H2 Hint Hne)
    as (Hlast & _ & Hdedup & _).
  destruct (log_id_text_or_number _ _ _ _ st' H1 H2 Hint Hne)
    as (_ & _ & _ & Hlookup).
  assert (Hin : "400" ∈ seen_tks (self st)) by compute_eq.
  destruct Hdedup as [Ha Hb]; [exact Hin | compute_neq | compute_eq |].
  destruct (Hlookup Ex.match_400 Ex.midnight) as [Hc Hd];
    [compute_neq | compute_neq | compute_eq | compute_eq | compute_eq |].
  repeat (split; [assumption|]). exact Hd.
Defined.

End Correlator_examples.

(** ** The damage window *)

Module Window_facts.
Import Monitor_facts.

Lemma tail_drop {A : Type} (k : nat) (l : list A) :
  tail (drop k l) = drop (S k) l.
Proof.
  revert l; induction k as [|k IH]; intros [|x l]; simpl; try reflexivity.
  apply IH.
Qed.

Lemma last20_length {A : Type} (l : list A) :
  (List.length (last20 l) <= 20)%nat.
Proof. unfold last20. rewrite length_drop. lia. Qed.

(** Remembering one more damage keeps the window the last twenty of all
    that were remembered. *)
Lemma remember_last20 dmg (l : list Match) :
  remember_damage dmg (last20 l) = last20 (l ++ [dmg]).
Proof.
  unfold remember_damage, last20.
  rewrite !length_app, length_drop. cbn [List.length].
  destruct (Nat.ltb_spec 20
              (List.length l - (List.length l - 20) + 1)) as [Hlt|Hge].
  - assert (Hn : (20 <= List.length l)%nat) by lia.
    replace (drop (List.length l - 20) l ++ [dmg])
      with (drop (List.length l - 20) (l ++ [dmg]))
      by (apply drop_app_le; lia).
    rewrite tail_drop. f_equal. lia.
  - assert (Hn : (List.length l < 20)%nat) by lia.
    replace (List.length l - 20)%nat with 0%nat by lia.
    replace (List.length l + 1 - 20)%nat with 0%nat by lia.
    now rewrite !drop_0.
Qed.

Lemma feed_damages_last20 lines : forall l st,
  recent_damages (self st) = last20 l ->
  recent_damages (self (feed_damages lines st))
  = last20 (l ++ omap (search damage_re) lines).
Proof.
  induction lines as [|line lines IH]; intros l st Hst.
  - cbn. now rewrite app_nil_r.
  - change (omap (search damage_re) (line :: lines))
      with (match search damage_re line with
            | Some dmg => dmg :: omap (search damage_re) lines
            | None => omap (search damage_re) lines
            end).
    change (feed_damages (line :: lines) st)
      with (feed_damages lines (snd (_match_damage line st))).
    rewrite _match_damage_eq.
    destruct (search damage_re line) as [dmg|]; cbn [snd].
    + change (dmg :: omap (search damage_re) lines)
        with ([dmg] ++ omap (search damage_re) lines).
      rewrite List.app_assoc. apply IH.
      cbn. rewrite Hst. apply remember_last20.
    + apply IH, Hst.
Qed.

(** The bound on the window is kept by every method, whatever its
    outcome. *)
Lemma remember_bound dmg (l : list Match) :
  (List.length l <= 20)%nat ->
  (List.length (remember_damage dmg l) <= 20)%nat.
Proof.
  intros H. unfold remember_damage. rewrite length_app. cbn [List.length].
  destruct (Nat.ltb_spec 20 (List.length l + 1));
    [|rewrite length_app; cbn [List.length]; lia].
  destruct l as [|x l]; [cbn in *; lia|].
  change (tail ((x :: l) ++ [dmg])) with (l ++ [dmg]).
  rewrite length_app. cbn [List.length] in *. lia.
Qed.

End Window_facts.

Section Window.
Import Monitor_facts Window_facts.

(** C5.  After any sequence of lines given to the damage handler of a new
    monitor, the window holds the last twenty of the damage matches found,
    in the order they were found, and so at most twenty; one more damage
    goes to the end, and the first entry is dropped when twenty were held. *)
Theorem damage_window_fifo :
  (forall lines a,
     let st := feed_damages lines {| self := TKMonitor_init; admincam_log := a |} in
     recent_damages (self st) = last20 (omap (search damage_re) lines)
     /\ (List.length (recent_damages (self st)) <= 20)%nat)
  /\ (forall dmg l,
        remember_damage dmg l
        = (if Nat.leb 20 (List.length l) then tail l else l) ++ [dmg]).
Proof.
  split.
  - intros lines a st.
    assert (H : recent_damages (self st) = last20 (omap (search damage_re) lines)).
    { apply (feed_damages_last20 lines []). reflexivity. }
    split; [exact H|]. rewrite H. apply last20_length.
  - intros dmg l. unfold remember_damage.
    rewrite length_app. cbn [List.length].
    destruct (Nat.ltb_spec 20 (List.length l + 1));
      destruct (Nat.leb_spec 20 (List.length l)); try lia; [|reflexivity].
    destruct l; [cbn in *; lia | reflexivity].
Qed.

End Window.

(** ** Classification and the admin-camera tracker *)

Module Admincam_facts.
Import Monitor_facts Correlator_facts.

Lemma admincam_takes_eq line t :
  admincam_takes line t
  = match search possess_re line, search unpossess_re line with
    | Some _, _ => true
    | None, Some m => bool_decide (group m "user" ∈ active_admin_cam_users t)
    | None, None => false
    end.
Proof.
  unfold admincam_takes, admincam_change.
  destruct (search possess_re line); [reflexivity|].
  destruct (search unpossess_re line); reflexivity.
Qed.

Lemma admincam_outcome_self c m st :
  self (snd (admincam_outcome c m st))
  = apply_change c (group m "user") (self st).
Proof.
  unfold admincam_outcome. destruct (Time.strptime _); [|reflexivity].
  destruct (can_open _); reflexivity.
Qed.

Lemma admincam_outcome_not_false c m st :
  fst (admincam_outcome c m st) <> Return false.
Proof.
  unfold admincam_outcome. destruct (Time.strptime _); [|discriminate].
  destruct (can_open _); discriminate.
Qed.

(** The teamkill handler touches neither the window, nor the set of users,
    nor the audit file. *)
Lemma _match_teamkill_frame line st :
  let st' := snd (_match_teamkill line st) in
  recent_damages (self st') = recent_damages (self st)
  /\ active_admin_cam_users (self st') = active_admin_cam_users (self st)
  /\ admincam_log st' = admincam_log st.
Proof.
  destruct (search teamkill_re line) as [team_kill|] eqn:H.
  - rewrite (_match_teamkill_cases _ _ _ H).
    pose proof (note_log_id_damages (group team_kill "log_id") (self st)).
    pose proof (note_log_id_active (group team_kill "log_id") (self st)).
    destruct (decide _); [cbn; auto|].
    destruct (find_damage _ _); [|cbn; auto].
    destruct (Time.strptime _); cbn; auto.
  - rewrite (_match_teamkill_none _ _ H). cbn. auto.
Qed.



Lemma transitions_cons line lines :
  transitions (line :: lines) = transitions [line] ++ transitions lines.
Proof.
  cbn [transitions]. destruct (admincam_change line) as [[c m]|]; reflexivity.
Qed.


End Admincam_facts.

Section Classification.
Import Monitor_facts Correlator_facts Admincam_facts.

Lemma _match_admincam_outcome line st :
  admincam_takes line (self st) = true ->
  exists c m,
    admincam_change line = Some (c, m)
    /\ _match_admincam line st = admincam_outcome c m st.
Proof. exact (_match_admincam_takes line st). Qed.

(** C6.  [parse_line] gives the line to the admin-camera handler first.
    The handler takes it when the possess pattern is found, or the
    unpossess pattern is found and its user is in the set; then neither the
    damage nor the teamkill handler runs, and [None] is returned unless an
    error is raised.  A line the handler does not take (an unpossess line
    for a user not in the set included) leaves the state as it is and goes
    to the damage pattern; if that is found the damage is remembered and
    [None] returned, and only otherwise the teamkill handler answers.  A
    line in which no pattern is found is answered [None] with the state
    unchanged and no error. *)
Theorem parse_line_priority line st :
  parse_line line st
  = (if admincam_takes line (self st) then
       match _match_admincam line st with
       | (Return _, st') => (Return None, st')
       | (Raise e, st') => (Raise e, st')
       end
     else
       match search damage_re line with
       | Some dmg => (Return None, with_self (with_damage dmg (self st)) st)
       | None => _match_teamkill line st
       end)
  /\ admincam_takes line (self st)
     = match search possess_re line, search unpossess_re line with
       | Some _, _ => true
       | None, Some m =>
           bool_decide (group m "user" ∈ active_admin_cam_users (self st))
       | None, None => false
       end
  /\ (admincam_takes line (self st) = true ->
      let after := _match_admincam line st in
      fst after <> Return false
      /\ recent_damages (self (snd after)) = recent_damages (self st)
      /\ seen_tks (self (snd after)) = seen_tks (self st)
      /\ last_log_id (self (snd after)) = last_log_id (self st))
  /\ (admincam_takes line (self st) = false ->
      _match_admincam line st = (Return false, st))
  /\ (search possess_re line = None -> search unpossess_re line = None ->
      search damage_re line = None -> search teamkill_re line = None ->
      parse_line line st = (Return None, st)).
Proof.
  split; [apply parse_line_eq|]. split; [apply admincam_takes_eq|].
  split; [|split].
  - intros E after. subst after.
    destruct (_match_admincam_outcome _ _ E) as (c & m & _ & ->).
    split; [apply admincam_outcome_not_false|].
    rewrite admincam_outcome_self. destruct c; auto.
  - apply _match_admincam_declines.
  - intros Hp Hu Hd Ht. rewrite parse_line_eq, admincam_takes_eq, Hp, Hu, Hd.
    now apply _match_teamkill_none.
Qed.


(** C8.  An error raised while a line is handled is not undone.  It leaves
    the window and the audit file as they were, and comes about in one of
    two ways.  Either the admin-camera handler took the line, and then the
    set of users has already been updated while no entry was written (the
    time text does not read, or the audit file does not open).  Or the
    teamkill handler found a buffered damage whose time text does not
    read, and then [last_log_id] has been set and [seen_tks] emptied if the
    wraparound test fired, without the identifier being added. *)
Theorem error_keeps_earlier_updates line st e st' :
  parse_line line st = (Raise e, st') ->
  recent_damages (self st') = recent_damages (self st)
  /\ admincam_log st' = admincam_log st
  /\ ((exists c m,
         admincam_takes line (self st) = true
         /\ admincam_change line = Some (c, m)
         /\ self st' = apply_change c (group m "user") (self st)
         /\ (e = ValueError /\ Time.strptime (group m "time") = None
             \/ e = OSError /\ can_open (admincam_log st) = false))
      \/ (exists team_kill dmg,
            admincam_takes line (self st) = false
            /\ search damage_re line = None
            /\ search teamkill_re line = Some team_kill
            /\ (group team_kill "log_id" ∉ seen_tks (self st'))
            /\ find_damage (group team_kill "log_id") (recent_damages (self st))
               = Some dmg
            /\ Time.strptime (group dmg "time") = None
            /\ e = ValueError
            /\ self st' = note_log_id (group team_kill "log_id") (self st))).
Proof.
  rewrite parse_line_eq.
  destruct (admincam_takes line (self st)) eqn:E.
  - destruct (_match_admincam_outcome _ _ E) as (c & m & Hc & ->).
    unfold admincam_outcome.
    destruct (Time.strptime _) eqn:Et;
      [destruct (can_open _) eqn:Eo; [discriminate|]|];
      intros [= <- <-];
      (split; [destruct c; reflexivity|]); (split; [reflexivity|]);
      left; exists c, m; auto 10.
  - destruct (search damage_re line) eqn:Ed; [discriminate|].
    destruct (search teamkill_re line) as [team_kill|] eqn:Et;
      [|rewrite (_match_teamkill_none _ _ Et); discriminate].
    rewrite (_match_teamkill_cases _ _ _ Et).
    destruct (decide _) as [|Hout]; [discriminate|].
    destruct (find_damage _ _) as [dmg|] eqn:Ef; [|discriminate].
    destruct (Time.strptime _) eqn:Etm; [discriminate|].
    intros [= <- <-]. after.
    split; [apply note_log_id_damages|]. split; [reflexivity|].
    right. exists team_kill, dmg. auto 10.
Qed.

End Classification.

Section Classification_examples.
Import Monitor_facts.

Ltac compute_eq := vm_compute; reflexivity.
Ltac compute_neq := vm_compute; congruence.

(** A possess line is taken by the admin-camera handler; an unpossess line
    for a user who never entered is not and changes nothing; the marker
    the follower yields for a line it could not decode fits no pattern and
    is dropped. *)
Lemma parse_line_priority_witness :
  let enter := Ex.possess "2024.01.01-00.00.00:000" "Alice" in
  let leave := Ex.unpossess "2024.01.01-00.00.02:000" "156" "Bob" in
  (admincam_takes enter (self Ex.fresh) = true
   /\ fst (_match_admincam enter Ex.fresh) <> Return false
   /\ seen_tks (self (snd (_match_admincam enter Ex.fresh))) = seen_tks (self Ex.fresh))
  /\ (admincam_takes leave (self Ex.fresh) = false
      /\ _match_admincam leave Ex.fresh = (Return false, Ex.fresh))
  /\ parse_line "DECODE_ERROR" Ex.fresh = (Return None, Ex.fresh).
Proof.
  intros enter leave.
  destruct (parse_line_priority enter Ex.fresh) as (_ & _ & Htakes & _).
  destruct (parse_line_priority leave Ex.fresh) as (_ & _ & _ & Hdeclines & _).
  destruct (parse_line_priority "DECODE_ERROR" Ex.fresh) as (_ & _ & _ & _ & Hnone).
  assert (E1 : admincam_takes enter (self Ex.fresh) = true) by compute_eq.
  assert (E2 : admincam_takes leave (self Ex.fresh) = false) by compute_eq.
  destruct (Htakes E1) as (Ha & _ & Hb & _).
  split; [auto|]. split; [auto|].
  apply Hnone; compute_eq.
Defined.

(** C6, as stated, fails: the first pattern found does not always win.  An
    unpossess line for a player who is not in the set, here one whose name
    holds the words of the teamkill pattern, is passed on and answered by
    the teamkill handler with a record. *)
Lemma admincam_pattern_does_not_win :
  ~ (forall line st c m,
       admincam_change line = Some (c, m) ->
       forall tk, fst (parse_line line st) <> Return (Some tk)).
Proof.
  intros claim.
  eapply (claim (Ex.unpossess "2024.01.01-00.00.02:000" "55"
                   "LogSquadScorePoints: TeamKilled")
                (Ex.fed [Ex.damage_55])).
  - compute_eq.
  - compute_eq.
Qed.



(** The audit file does not open: the possess line raises [OSError], Alice
    is in the set all the same and nothing was written. *)
Lemma error_keeps_earlier_updates_witness :
  let enter := Ex.possess "2024.01.01-00.00.00:000" "Alice" in
  let st' := snd (parse_line enter Ex.fresh_locked) in
  parse_line enter Ex.fresh_locked = (Raise OSError, st')
  /\ recent_damages (self st') = []
  /\ admincam_log st' = admincam_log Ex.fresh_locked
  /\ "Alice" ∈ active_admin_cam_users (self st').
Proof.
  intros enter st'.
  assert (H : parse_line enter Ex.fresh_locked = (Raise OSError, st'))
    by compute_eq.
  destruct (error_keeps_earlier_updates _ _ _ _ H) as (Hw & Hlog & _).
  split; [exact H|]. split; [exact Hw|]. split; [exact Hlog|]. compute_eq.
Defined.

(** C8, as stated, fails: an error does not leave the monitor as it
    was.  With an audit file that does not open, a possess line raises
    [OSError] and Alice stays in the set. *)
Lemma error_is_not_all_or_nothing :
  ~ (forall line st e st',
       parse_line line st = (Raise e, st') -> self st' = self st).
Proof.
  intros claim.
  set (enter := Ex.possess "2024.01.01-00.00.00:000" "Alice").
  assert (H : parse_line enter Ex.fresh_locked
              = (Raise OSError, snd (parse_line enter Ex.fresh_locked)))
    by compute_eq.
  apply claim in H.
  assert (Hin : "Alice" ∈ active_admin_cam_users
                  (self (snd (parse_line enter Ex.fresh_locked))))
    by compute_eq.
  rewrite H in Hin. vm_compute in Hin. discriminate.
Qed.

End Classification_examples.

(** ** The follower and the monitor *)

Section Follower.

(** C9.  When the follower reaches the end of the file and checks for
    truncation, the monitor and the audit file are left as they are, also
    when the file is reopened: the window, [seen_tks], [last_log_id] and
    the set of users all persist, and so does the line counter.  A reopen
    replaces the file object, which stands at the end of the new file, and
    the recorded size; without one (the size did not shrink, or [fstat]
    raised [IOError]) the follower is unchanged too. *)
Theorem reopen_keeps_monitor p t :
  let t' := snd (task_step (EndOfFile p) t) in
  fst (task_step (EndOfFile p) t) = Return None
  /\ engine t' = engine t
  /\ line_counter (follower t') = line_counter (follower t)
  /\ match st_size p with
     | Some cur_size =>
         if N.ltb cur_size (file_size (follower t))
         then f (follower t')
              = {| handle := fresh_handle p; offset := fresh_size p |}
              /\ file_size (follower t') = fresh_size p
         else follower t' = follower t
     | None => follower t' = follower t
     end.
Proof.
  cbn [task_step snd fst engine follower]. unfold check_truncated.
  split; [reflexivity|]. split; [reflexivity|].
  destruct (st_size p) as [cur_size|]; [|auto].
  destruct (N.ltb cur_size (file_size (follower t))); cbn; auto.
Qed.

(** C9, as stated, fails: a reopen does not reset the damage window.  The
    log shrinks from 50000 to 1200 bytes with one damage buffered; after
    the reopen the damage is still there. *)
Lemma reopen_does_not_reset_window :
  ~ (forall p t cur_size,
       st_size p = Some cur_size ->
       (cur_size < file_size (follower t))%N ->
       recent_damages (self (engine (snd (task_step (EndOfFile p) t))))
       = recent_damages TKMonitor_init).
Proof.
  intros claim.
  specialize (claim Ex.shrunk_to_1200
                (Ex.task_at_50000 (Ex.fed [Ex.damage_55])) 1200%N
                eq_refl eq_refl).
  vm_compute in claim. discriminate claim.
Qed.

(** A damage buffered before the reopen gives the record for a teamkill
    line read after it. *)
Example damage_outlives_reopen :
  fst (fst (task_run [Line Ex.damage_55 50000%N;
                      EndOfFile Ex.shrunk_to_1200;
                      Line (Ex.teamkill "55") 1300%N]
                     (Ex.task_at_50000 Ex.fresh)))
  = [record_of Ex.match_55 Ex.midnight].
Proof. vm_compute. reflexivity. Qed.

End Follower.


(** * More of the program *)

(** ** What the patterns find *)

Module Search_facts.
Import Re_spec Str_facts Re_facts Pattern_facts.

Lemma all_app g (a b : string) :
  Str.all g (a +:+ b) = (Str.all g a && Str.all g b)%bool.
Proof.
  induction a as [|x a IH]; [reflexivity|].
  rewrite app_cons. simpl. rewrite IH. apply andb_assoc.
Qed.

Lemma strip_prefix_here l (s : string) : Str.strip_prefix l (l +:+ s) = Some s.
Proof.
  induction l as [|a l IH]; [reflexivity|].
  rewrite app_cons. simpl. now rewrite Ascii.eqb_refl.
Qed.

Lemma span_prefix c t (s : string) :
  Str.all (accepts c) t = true -> (String.length t <= span c (t +:+ s))%nat.
Proof.
  induction t as [|a t IH]; intros H; [simpl; lia|].
  simpl in H. apply andb_true_iff in H as [Ha Ht].
  rewrite app_cons. simpl. rewrite Ha. specialize (IH Ht). lia.
Qed.

Lemma drop_prefix t (s : string) : Str.drop (String.length t) (t +:+ s) = s.
Proof. induction t as [|a t IH]; [now destruct s|]. rewrite app_cons. exact IH. Qed.

(** A repetition succeeds as soon as one count it may try does. *)
Lemma give_back_finds (g : option string) mn r s k :
  (mn <= k)%nat ->
  match_here r (Str.drop k s) <> None ->
  forall n, (k <= n)%nat ->
  (fix give_back (k : nat) : option Match :=
     let attempt :=
       if Nat.leb mn k then match_here r (Str.drop k s) else None in
     match attempt with
     | Some m => Some (bind_group g (Str.take k s) m)
     | None => match k with O => None | S k' => give_back k' end
     end) n <> None.
Proof.
  intros Hmn Hk. induction n as [|n IH]; intros Hn.
  - assert (k = 0)%nat as -> by lia.
    replace (Nat.leb mn 0) with true by (symmetry; apply Nat.leb_le; lia).
    cbv zeta. destruct (match_here r (Str.drop 0 s)); [discriminate | contradiction].
  - cbv zeta.
    destruct (if Nat.leb mn (S n) then match_here r (Str.drop (S n) s) else None)
      eqn:E; [discriminate|].
    destruct (Nat.eq_dec k (S n)) as [->|Hne].
    + replace (Nat.leb mn (S n)) with true in E
        by (symmetry; apply Nat.leb_le; lia).
      contradiction.
    + apply IH. lia.
Qed.

(** Text the pattern stands for is matched where it starts. *)
Lemma match_here_complete r t m :
  matches r t m -> forall rest, match_here r (t +:+ rest) <> None.
Proof.
  induction 1 as [|l r s m Hm IH|g c mn r t s m Hall Hlen Hm IH]; intros rest.
  - discriminate.
  - simpl. rewrite app_assoc, strip_prefix_here. apply IH.
  - cbn [match_here]. rewrite app_assoc.
    apply (give_back_finds g mn r _ (String.length t)).
    + exact Hlen.
    + rewrite drop_prefix. apply IH.
    + now apply span_prefix.
Qed.

Lemma search_complete r pre t rest m :
  matches r t m -> search r (pre +:+ t +:+ rest) <> None.
Proof.
  intros Hm. induction pre as [|a pre IH].
  - rewrite app_nil_l.
    pose proof (match_here_complete _ _ _ Hm rest) as H.
    destruct (t +:+ rest); simpl; destruct (match_here r _); congruence.
  - rewrite app_cons. simpl. destruct (match_here r _); [discriminate | exact IH].
Qed.

(** [search] finds a match exactly in the lines that hold text the pattern
    stands for. *)
Lemma search_iff r s :
  search r s <> None
  <-> exists pre t rest m, s = pre +:+ t +:+ rest /\ matches r t m.
Proof.
  split.
  - destruct (search r s) as [m|] eqn:E; [intros _|contradiction].
    destruct (search_sound _ _ _ E) as (pre & t & rest & Hs & Hm). eauto 6.
  - intros (pre & t & rest & m & -> & Hm). eapply search_complete, Hm.
Qed.

End Search_facts.

Section Patterns_found.
Import Re_spec Str_facts Re_facts Pattern_facts Search_facts.

Ltac build_matches :=
  cbn [fold_right];
  repeat first
    [ apply matches_nil
    | apply matches_lit
    | apply matches_rep; [assumption | first [assumption | apply Nat.le_0_l] |] ].

(** X1.  The teamkill pattern is found exactly in the lines that hold, in
    this order, a bracketed run of digits, [LogSquadScorePoints:] and
    [TeamKilled], with no newline between the closing bracket and
    [TeamKilled]; the [log_id] group of the match is such a run of digits of
    the line. *)
Theorem teamkill_pattern_found line :
  (forall m,
     search teamkill_re line = Some m ->
     exists pre id mid1 mid2 post,
       m = [("log_id", id)]
       /\ line = pre +:+ "[" +:+ id +:+ "]" +:+ mid1 +:+ "LogSquadScorePoints:"
                 +:+ mid2 +:+ "TeamKilled" +:+ post
       /\ Str.all Str.is_digit id = true
       /\ (1 <= String.length id)%nat
       /\ Str.all (accepts (NoneOf Str.nl)) mid1 = true
       /\ Str.all (accepts (NoneOf Str.nl)) mid2 = true)
  /\ (forall pre id mid1 mid2 post,
        line = pre +:+ "[" +:+ id +:+ "]" +:+ mid1 +:+ "LogSquadScorePoints:"
               +:+ mid2 +:+ "TeamKilled" +:+ post ->
        Str.all Str.is_digit id = true ->
        (1 <= String.length id)%nat ->
        Str.all (accepts (NoneOf Str.nl)) mid1 = true ->
        Str.all (accepts (NoneOf Str.nl)) mid2 = true ->
        search teamkill_re line <> None).
Proof.
  split.
  - intros m H. apply search_sound in H as (pre & t & rest & -> & Hm).
    unfold teamkill_re in Hm.
    lit Hm. rep Hm lid Hid Hid'. lit Hm. rep Hm mid1 H1 H1'. lit Hm.
    rep Hm mid2 H2 H2'. lit Hm.
    apply matches_nil_inv in Hm as [-> ->].
    exists pre, lid, mid1, mid2, rest.
    split; [reflexivity|]. split; [|auto].
    apply (f_equal (append pre)).
    exact (join_app ["["; lid; "]"; mid1; "LogSquadScorePoints:"; mid2;
                     "TeamKilled"] rest).
  - intros pre lid mid1 mid2 post -> Hid Hlen H1 H2.
    apply search_iff.
    exists pre,
      (fold_right append ""
         ["["; lid; "]"; mid1; "LogSquadScorePoints:"; mid2; "TeamKilled"]),
      post.
    eexists. split.
    + apply (f_equal (append pre)). symmetry.
      exact (join_app ["["; lid; "]"; mid1; "LogSquadScorePoints:"; mid2;
                       "TeamKilled"] post).
    + unfold teamkill_re. build_matches.
Qed.

(** X2.  The damage pattern is found exactly in the lines that hold a
    bracketed time, a bracketed run of digits, [LogSquad: Player:], then
    [ ActualDamage=], [ from ], [ caused by BP_] and an underscore in this
    order, the time without a closing bracket, the text from the player on
    without a newline and no underscore between [BP_] and the underscore.
    The groups of the match are the pieces of such a reading of the line, so
    the weapon never holds an underscore and the [log_id] is a run of
    digits. *)
Theorem damage_pattern_found line :
  (forall m,
     search damage_re line = Some m ->
     exists pre time id vic amount kil wpn post,
       m = [("time", time); ("log_id", id); ("victim", vic);
            ("killer", kil); ("weapon", wpn)]
       /\ line = pre +:+ "[" +:+ time +:+ "][" +:+ id +:+ "]LogSquad: Player:"
                 +:+ vic +:+ " ActualDamage=" +:+ amount +:+ " from " +:+ kil
                 +:+ " caused by BP_" +:+ wpn +:+ "_" +:+ post
       /\ Str.all (accepts (NoneOf "]")) time = true
       /\ (1 <= String.length time)%nat
       /\ Str.all Str.is_digit id = true
       /\ (1 <= String.length id)%nat
       /\ Str.all (accepts Dot) vic = true
       /\ Str.all (accepts Dot) amount = true
       /\ Str.all (accepts Dot) kil = true
       /\ Str.all (accepts (NoneOf "_")) wpn = true)
  /\ (forall pre time id vic amount kil wpn post,
        line = pre +:+ "[" +:+ time +:+ "][" +:+ id +:+ "]LogSquad: Player:"
               +:+ vic +:+ " ActualDamage=" +:+ amount +:+ " from " +:+ kil
               +:+ " caused by BP_" +:+ wpn +:+ "_" +:+ post ->
        Str.all (accepts (NoneOf "]")) time = true ->
        (1 <= String.length time)%nat ->
        Str.all Str.is_digit id = true ->
        (1 <= String.length id)%nat ->
        Str.all (accepts Dot) vic = true ->
        Str.all (accepts Dot) amount = true ->
        Str.all (accepts Dot) kil = true ->
        Str.all (accepts (NoneOf "_")) wpn = true ->
        search damage_re line <> None).
Proof.
  split.
  - intros m H. apply search_sound in H as (pre & t & rest & -> & Hm).
    unfold damage_re in Hm.
    lit Hm. rep Hm time Ht Ht'. lit Hm. lit Hm. rep Hm lid Hid Hid'. lit Hm.
    lit Hm. rep Hm vic Hv Hv'. lit Hm. rep Hm amount Ha Ha'. lit Hm.
    rep Hm kil Hk Hk'. lit Hm. lit Hm. rep Hm wpn Hw Hw'. lit Hm.
    apply matches_nil_inv in Hm as [-> ->].
    exists pre, time, lid, vic, amount, kil, wpn, rest.
    split; [reflexivity|]. split; [|auto 10].
    apply (f_equal (append pre)).
    exact (join_app ["["; time; "]"; "["; lid; "]"; "LogSquad: Player:"; vic;
                     " ActualDamage="; amount; " from "; kil; " caused by ";
                     "BP_"; wpn; "_"] rest).
  - intros pre time lid vic amount kil wpn post -> Ht Ht' Hid Hid' Hv Ha Hk Hw.
    apply search_iff.
    exists pre,
      (fold_right append ""
         ["["; time; "]"; "["; lid; "]"; "LogSquad: Player:"; vic;
          " ActualDamage="; amount; " from "; kil; " caused by ";
          "BP_"; wpn; "_"]),
      post.
    eexists. split.
    + apply (f_equal (append pre)). symmetry.
      exact (join_app ["["; time; "]"; "["; lid; "]"; "LogSquad: Player:"; vic;
                       " ActualDamage="; amount; " from "; kil; " caused by ";
                       "BP_"; wpn; "_"] post).
    + unfold damage_re. build_matches.
Qed.

End Patterns_found.

(** ** Lines that no handler takes *)

Module Inert_facts.
Import Re_spec Str_facts Re_facts Pattern_facts Search_facts Monitor_facts.

(** A pattern that starts with fixed text is only found in lines that hold
    that text. *)
Lemma search_holds_literal l r s m :
  search (Lit l :: r) s = Some m -> exists pre rest, s = pre +:+ l +:+ rest.
Proof.
  intros H. apply search_sound in H as (pre & t & rest & -> & Hm).
  apply matches_lit_inv in Hm as (s' & -> & _).
  exists pre, (s' +:+ rest). now rewrite app_assoc.
Qed.

Lemma no_bracket_no_match r s :
  no_bracket s = true -> search (Lit "[" :: r) s = None.
Proof.
  intros Hnb. destruct (search _ s) as [m|] eqn:E; [|reflexivity].
  apply search_holds_literal in E as (pre & rest & ->).
  unfold no_bracket in Hnb. rewrite all_app, app_cons in Hnb.
  simpl in Hnb. rewrite andb_false_r in Hnb. discriminate.
Qed.

End Inert_facts.

Section Inert_lines.
Import Monitor_facts Inert_facts Admincam_facts.

(** X3.  A line without an opening bracket fits none of the four patterns
    and is dropped: [parse_line] returns [None] and leaves the monitor and
    the audit file as they are, raising nothing.  The marker the follower
    puts in the place of a line it could not decode is such a line, so a
    decode error never changes the state. *)
Theorem line_without_bracket_dropped :
  (forall line st,
     no_bracket line = true -> parse_line line st = (Return None, st))
  /\ (forall st,
        line_read UnicodeDecodeError = Some "DECODE_ERROR"
        /\ parse_line "DECODE_ERROR" st = (Return None, st)).
Proof.
  assert (H : forall line st,
            no_bracket line = true -> parse_line line st = (Return None, st)).
  { intros line st Hnb.
    rewrite parse_line_eq, admincam_takes_eq.
    unfold possess_re, unpossess_re, damage_re.
    rewrite !(no_bracket_no_match _ _ Hnb).
    apply _match_teamkill_none. now apply no_bracket_no_match. }
  split; [exact H|].
  intros st. split; [reflexivity|]. now apply H.
Qed.

Lemma line_without_bracket_dropped_witness :
  no_bracket Ex_more.chat = true
  /\ parse_line Ex_more.chat (Ex.fed [Ex.damage_55])
     = (Return None, Ex.fed [Ex.damage_55]).
Proof.
  assert (H : no_bracket Ex_more.chat = true) by (vm_compute; reflexivity).
  split; [exact H|].
  exact (proj1 line_without_bracket_dropped _ _ H).
Defined.

End Inert_lines.

(** ** What a run keeps *)

Module Run_facts.
Import Monitor_facts Correlator_facts Window_facts Admincam_facts.

(** The window after a line: one more damage when the line goes to the
    damage handler and the pattern is found, and the same otherwise. *)
Lemma parse_line_window line st :
  recent_damages (self (snd (parse_line line st)))
  = match (if admincam_takes line (self st) then None
           else search damage_re line) with
    | Some dmg => remember_damage dmg (recent_damages (self st))
    | None => recent_damages (self st)
    end.
Proof.
  rewrite parse_line_eq.
  destruct (admincam_takes line (self st)) eqn:E.
  - destruct (_match_admincam_takes _ _ E) as (c & m & _ & ->). cbv zeta.
    destruct (Time.strptime _); [destruct (can_open _)|]; destruct c; reflexivity.
  - destruct (search damage_re line); [reflexivity|].
    apply _match_teamkill_frame.
Qed.


(** The audit file after a line: the same, or one more entry when the
    admin-camera handler takes the line. *)
Lemma parse_line_written line st :
  admincam_log (snd (parse_line line st)) = admincam_log st
  \/ (admincam_takes line (self st) = true
      /\ can_open (admincam_log st) = true
      /\ exists entry,
           admincam_log (snd (parse_line line st))
           = {| can_open := true;
                written := written (admincam_log st) ++ [entry] |}).
Proof.
  rewrite parse_line_eq.
  destruct (admincam_takes line (self st)) eqn:E.
  - destruct (_match_admincam_takes _ _ E) as (c & m & _ & ->). cbv zeta.
    destruct (Time.strptime _); [|now left].
    destruct (can_open _) eqn:Eo; [|now left].
    right. split; [reflexivity|]. split; [reflexivity|]. eexists. reflexivity.
  - left. destruct (search damage_re line); [reflexivity|].
    apply _match_teamkill_frame.
Qed.


End Run_facts.

Section Runs.
Import Monitor_facts Correlator_facts Window_facts Admincam_facts Run_facts.

(** X4.  The bound of twenty on the window is kept by a task whatever it is
    given: lines of any kind, ends of file with or without a reopen, and
    also when a line raises an error. *)
Theorem window_bound_kept evs : forall t,
  window_bounded (engine t) ->
  window_bounded (engine (snd (task_run evs t))).
Proof.
  induction evs as [|ev evs IH]; intros t Hb; [exact Hb|].
  cbn [task_run].
  assert (Hstep : window_bounded (engine (snd (task_step ev t)))).
  { destruct ev as [line cur_size|p]; cbn [task_step]; [|exact Hb].
    pose proof (parse_line_window line (engine t)) as Hw.
    destruct (parse_line line (engine t)) as [r st']. cbn [snd engine] in *.
    unfold window_bounded. rewrite Hw.
    destruct (if admincam_takes line (self (engine t)) then None
              else search damage_re line); [|exact Hb].
    now apply remember_bound. }
  destruct (task_step ev t) as [[tk|e] t1]; [|exact Hstep].
  specialize (IH t1 Hstep).
  destruct (task_run evs t1) as [[tks r] t2]. exact IH.
Qed.


End Runs.

Section Runs_more.
Import Monitor_facts Correlator_facts Window_facts Admincam_facts Run_facts.

Ltac compute_eq := vm_compute; reflexivity.

(** Twenty-five damage lines, a reopen and a teamkill line: the window holds
    twenty entries. *)
Lemma window_bound_kept_witness :
  let evs := map (fun line => Line line 50000%N) (repeat Ex.damage_55 25)
             ++ [EndOfFile Ex.shrunk_to_1200; Line (Ex.teamkill "55") 1300%N] in
  let t := Ex.task_at_50000 Ex.fresh in
  window_bounded (engine t)
  /\ window_bounded (engine (snd (task_run evs t)))
  /\ List.length (recent_damages (self (engine (snd (task_run evs t))))) = 20%nat.
Proof.
  intros evs t.
  assert (H : window_bounded (engine t)) by (vm_compute; repeat constructor).
  split; [exact H|]. split; [exact (window_bound_kept evs t H)|]. compute_eq.
Defined.


(** X6.  Each handler keeps to its own part of the state.  The damage
    handler raises nothing and changes at most the window; the teamkill
    handler changes at most [seen_tks] and [last_log_id]; the admin-camera
    handler changes at most the set of users and the audit file. *)
Theorem handlers_keep_apart line st :
  (let after := _match_damage line st in
   (exists b, fst after = Return b)
   /\ seen_tks (self (snd after)) = seen_tks (self st)
   /\ last_log_id (self (snd after)) = last_log_id (self st)
   /\ active_admin_cam_users (self (snd after)) = active_admin_cam_users (self st)
   /\ admincam_log (snd after) = admincam_log st)
  /\ (let after := _match_teamkill line st in
      recent_damages (self (snd after)) = recent_damages (self st)
      /\ active_admin_cam_users (self (snd after))
         = active_admin_cam_users (self st)
      /\ admincam_log (snd after) = admincam_log st)
  /\ (let after := _match_admincam line st in
      recent_damages (self (snd after)) = recent_damages (self st)
      /\ seen_tks (self (snd after)) = seen_tks (self st)
      /\ last_log_id (self (snd after)) = last_log_id (self st)).
Proof.
  split; [|split].
  - rewrite _match_damage_eq. destruct (search damage_re line); cbn; eauto 6.
  - apply _match_teamkill_frame.
  - destruct (admincam_takes line (self st)) eqn:E.
    + destruct (_match_admincam_takes _ _ E) as (c & m & _ & ->). cbv zeta.
      destruct (Time.strptime _); [destruct (can_open _)|]; destruct c; cbn; auto.
    + rewrite (_match_admincam_declines _ _ E). cbn. auto.
Qed.

(** X7.  The audit file is only ever appended to.  Over any run, the text
    written before is still there, followed by at most one entry per line of
    the possess or unpossess pattern; nothing is added when the file cannot
    be opened, and no other line adds anything. *)
Theorem audit_file_only_grows lines : forall st,
  exists entries,
    written (admincam_log (snd (tk_follow lines st)))
    = written (admincam_log st) ++ entries
    /\ (List.length entries <= List.length (transitions lines))%nat
    /\ (can_open (admincam_log st) = false -> entries = [])
    /\ can_open (admincam_log (snd (tk_follow lines st)))
       = can_open (admincam_log st).
Proof.
  induction lines as [|line lines IH]; intros st.
  - exists []. cbn. rewrite app_nil_r. auto with arith.
  - cbn [tk_follow]. rewrite transitions_cons, length_app.
    assert (Hstep : exists entries,
              written (admincam_log (snd (parse_line line st)))
              = written (admincam_log st) ++ entries
              /\ (List.length entries <= List.length (transitions [line]))%nat
              /\ (can_open (admincam_log st) = false -> entries = [])
              /\ can_open (admincam_log (snd (parse_line line st)))
                 = can_open (admincam_log st)).
    { destruct (parse_line_written line st) as [->|(Ht & Ho & entry & ->)].
      - exists []. rewrite app_nil_r. cbn. auto with arith.
      - exists [entry]. cbn [written can_open List.length].
        split; [reflexivity|]. split; [|split; [congruence | now rewrite Ho]].
        unfold admincam_takes in Ht. cbn [transitions].
        destruct (admincam_change line) as [[c m]|]; [cbn; lia | discriminate]. }
    destruct (parse_line line st) as [[tk|e] st1].
    + destruct Hstep as (e1 & Hw1 & Hl1 & Hc1 & Ho1). cbn [snd] in *.
      destruct (IH st1) as (e2 & Hw2 & Hl2 & Hc2 & Ho2).
      destruct (tk_follow lines st1) as [[tks r] st2]. cbn [snd] in *.
      exists (e1 ++ e2). rewrite Hw2, Hw1, length_app, <- List.app_assoc.
      split; [reflexivity|]. split; [lia|]. split; [|congruence].
      intros Hno. rewrite (Hc1 Hno), Hc2; [reflexivity | congruence].
    + destruct Hstep as (e1 & Hw1 & Hl1 & Hc1 & Ho1). cbn [snd] in *.
      exists e1. split; [exact Hw1|]. split; [lia|]. auto.
Qed.

Lemma audit_file_only_grows_witness :
  let lines := [Ex.possess "2024.01.01-00.00.00:000" "Alice"] in
  can_open (admincam_log Ex.fresh_locked) = false
  /\ written (admincam_log (snd (tk_follow lines Ex.fresh_locked))) = [].
Proof.
  intros lines.
  destruct (audit_file_only_grows lines Ex.fresh_locked)
    as (entries & Hw & _ & Hno & _).
  split; [reflexivity|]. rewrite Hw, (Hno eq_refl). reflexivity.
Defined.

(** X9.  A possess line followed by an unpossess line of the same user,
    both with a time text that reads and with an audit file that opens,
    leaves the user out of the set whether or not they were in it before,
    writes the enter entry and then the leave entry, and changes nothing
    else; for a user who was not in the set, the set is back as it was. *)
Theorem enter_then_leave st enter leave me ml te tl :
  search possess_re enter = Some me ->
  search possess_re leave = None ->
  search unpossess_re leave = Some ml ->
  group ml "user" = group me "user" ->
  Time.strptime (group me "time") = Some te ->
  Time.strptime (group ml "time") = Some tl ->
  can_open (admincam_log st) = true ->
  let u := group me "user" in
  exists st1 st2,
    parse_line enter st = (Return None, st1)
    /\ parse_line leave st1 = (Return None, st2)
    /\ active_admin_cam_users (self st2) = active_admin_cam_users (self st) ∖ {[ u ]}
    /\ (u ∉ active_admin_cam_users (self st) ->
        active_admin_cam_users (self st2) = active_admin_cam_users (self st))
    /\ written (admincam_log st2)
       = written (admincam_log st)
         ++ [audit_entry ENTER me te; audit_entry POSSIBLE_LEAVE ml tl]
    /\ recent_damages (self st2) = recent_damages (self st)
    /\ seen_tks (self st2) = seen_tks (self st)
    /\ last_log_id (self st2) = last_log_id (self st).
Proof.
  intros Hp Hn Hu Huser Hte Htl Ho u.
  assert (E1 : admincam_takes enter (self st) = true)
    by now rewrite admincam_takes_eq, Hp.
  assert (R1 : _match_admincam enter st
               = (Return true,
                  with_entry (audit_entry ENTER me te)
                    (with_self (apply_change ENTER u (self st)) st))).
  { destruct (_match_admincam_takes _ _ E1) as (c & m & Hc & ->).
    unfold admincam_change in Hc. rewrite Hp in Hc. injection Hc as <- <-.
    cbv zeta. now rewrite Hte, Ho. }
  set (st1 := with_entry (audit_entry ENTER me te)
                (with_self (apply_change ENTER u (self st)) st)) in *.
  assert (E2 : admincam_takes leave (self st1) = true).
  { rewrite admincam_takes_eq, Hn, Hu, Huser. apply bool_decide_eq_true.
    cbn. set_solver. }
  assert (R2 : _match_admincam leave st1
               = (Return true,
                  with_entry (audit_entry POSSIBLE_LEAVE ml tl)
                    (with_self (apply_change POSSIBLE_LEAVE u (self st1)) st1))).
  { destruct (_match_admincam_takes _ _ E2) as (c & m & Hc & ->).
    unfold admincam_change in Hc. rewrite Hn, Hu in Hc. injection Hc as <- <-.
    cbv zeta. rewrite Htl, Huser. reflexivity. }
  eexists _, _. split; [|split].
  - rewrite parse_line_eq, E1, R1. reflexivity.
  - rewrite parse_line_eq, E2, R2. reflexivity.
  - cbn. rewrite <- List.app_assoc.
    split; [set_solver|]. split; [set_solver|]. auto.
Qed.

Lemma enter_then_leave_witness :
  let enter := Ex.possess "2024.01.01-00.00.00:000" "Alice" in
  let leave := Ex.unpossess "2024.01.01-00.00.02:000" "156" "Alice" in
  exists st1 st2,
    parse_line enter Ex.fresh = (Return None, st1)
    /\ parse_line leave st1 = (Return None, st2)
    /\ active_admin_cam_users (self st2) = ∅
    /\ List.length (written (admincam_log st2)) = 2%nat.
Proof.
  intros enter leave.
  destruct (enter_then_leave Ex.fresh enter leave
              [("time", "2024.01.01-00.00.00:000"); ("log_id", "155");
               ("user", "Alice")]
              [("time", "2024.01.01-00.00.02:000"); ("log_id", "156");
               ("user", "Alice")]
              (mk_datetime 2024 1 1 0 0 0 0 None)
              (mk_datetime 2024 1 1 0 0 2 0 None))
    as (st1 & st2 & H1 & H2 & _ & Hback & Hw & _);
    try compute_eq.
  exists st1, st2. split; [exact H1|]. split; [exact H2|].
  split; [apply Hback; vm_compute; congruence|].
  rewrite Hw. reflexivity.
Defined.

End Runs_more.

(** ** Time texts *)

Module Time_facts.

Lemma is_digit_range a :
  Str.is_digit a = true -> (48 <= nat_of_ascii a <= 57)%nat.
Proof.
  unfold Str.is_digit. intros H. apply andb_true_iff in H as [H1 H2].
  apply Nat.leb_le in H1, H2. lia.
Qed.

Lemma digit_val_range a : Str.is_digit a = true -> 0 <= Str.digit_val a <= 9.
Proof. intros H. apply is_digit_range in H. unfold Str.digit_val. lia. Qed.

Lemma digit_char_val a n :
  Str.is_digit a = true -> n mod 10 = Str.digit_val a -> Time.digit_char n = a.
Proof.
  intros Ha Hn. unfold Time.digit_char. rewrite Hn.
  apply is_digit_range in Ha. unfold Str.digit_val.
  replace (48 + Z.to_nat (Z.of_nat (nat_of_ascii a) - 48))%nat
    with (nat_of_ascii a) by lia.
  apply ascii_nat_embedding.
Qed.

Lemma pad2_two a b :
  Str.is_digit a = true -> Str.is_digit b = true ->
  Time.pad2 (Time.two a b) = String a (String b "").
Proof.
  intros Ha Hb. unfold Time.pad2, Time.two.
  pose proof (digit_val_range a Ha). pose proof (digit_val_range b Hb).
  f_equal; [|f_equal]; apply digit_char_val; auto.
  - replace ((10 * Str.digit_val a + Str.digit_val b) / 10)
      with (Str.digit_val a)
      by (apply Z.div_unique with (r := Str.digit_val b); lia).
    apply Z.mod_small. lia.
  - symmetry. apply Z.mod_unique with (q := Str.digit_val a); lia.
Qed.

Lemma two_range a b :
  Str.is_digit a = true -> Str.is_digit b = true -> 0 <= Time.two a b <= 99.
Proof.
  intros Ha Hb. unfold Time.two.
  pose proof (digit_val_range a Ha). pose proof (digit_val_range b Hb). lia.
Qed.

Lemma pad4_two a b c d :
  Str.is_digit a = true -> Str.is_digit b = true ->
  Str.is_digit c = true -> Str.is_digit d = true ->
  Time.pad4 (100 * Time.two a b + Time.two c d)
  = String a (String b (String c (String d ""))).
Proof.
  intros Ha Hb Hc Hd. unfold Time.pad4.
  pose proof (two_range a b Ha Hb). pose proof (two_range c d Hc Hd).
  replace ((100 * Time.two a b + Time.two c d) / 100) with (Time.two a b)
    by (apply Z.div_unique with (r := Time.two c d); lia).
  replace ((100 * Time.two a b + Time.two c d) mod 100) with (Time.two c d)
    by (apply Z.mod_unique with (q := Time.two a b); lia).
  now rewrite !pad2_two.
Qed.

Lemma field_Y_digits a b c d s :
  Str.is_digit a = true -> Str.is_digit b = true ->
  Str.is_digit c = true -> Str.is_digit d = true ->
  Time.field_Y (String a (String b (String c (String d s))))
  = Some (100 * Time.two a b + Time.two c d, s).
Proof. intros Ha Hb Hc Hd. unfold Time.field_Y. now rewrite Ha, Hb, Hc, Hd. Qed.

(** A field of one or two digits read from two digits takes both or the
    first. *)
Lemma two_then_one_cases alts lo hi a b s v r :
  Time.two_then_one alts lo hi (String a (String b s)) = Some (v, r) ->
  (v = Time.two a b /\ r = s) \/ r = String b s.
Proof.
  unfold Time.two_then_one.
  induction alts as [|[[[alo ahi] blo] bhi] alts IH]; intros H.
  - destruct (Time.in_range lo hi a); [|discriminate].
    injection H as _ <-. now right.
  - destruct (Time.in_range alo ahi a && Time.in_range blo bhi b)%bool.
    + injection H as <- <-. now left.
    + apply IH, H.
Qed.

Lemma field_d_cases a b s v r :
  Str.is_digit a = true ->
  Time.field_d (String a (String b s)) = Some (v, r) ->
  (v = Time.two a b /\ r = s) \/ r = String b s.
Proof.
  intros Ha. unfold Time.field_d.
  destruct (Time.two_then_one _ _ _ _) as [[v' r']|] eqn:E.
  - intros [= <- <-]. eapply two_then_one_cases, E.
  - destruct (Ascii.eqb_spec a " ") as [->|Hne]; [discriminate Ha|].
    destruct a as [[] [] [] [] [] [] [] []]; try discriminate; congruence.
Qed.

(** A separator is not found where a digit stands. *)
Lemma sep_digit l b s :
  Str.is_digit b = true -> Str.is_digit l = false ->
  Time.sep (String l "") (String b s) = None.
Proof.
  intros Hb Hl. unfold Time.sep. simpl.
  destruct (Ascii.eqb_spec l b) as [->|]; [congruence | reflexivity].
Qed.

End Time_facts.

Section Time_round_trip.
Import Time_facts.

Lemma sep_here l s : Time.sep (String l "") (String l s) = Some s.
Proof. unfold Time.sep. simpl. now rewrite Ascii.eqb_refl. Qed.

Ltac bind_step H := cbn [mbind option_bind] in H.

Ltac cases_of E :=
  first
    [ apply field_d_cases in E; [|assumption]
    | unfold Time.field_m, Time.field_H, Time.field_M, Time.field_S in E;
      apply two_then_one_cases in E ].

Ltac field_step H :=
  match type of H with
  | mbind _ (?F (String ?a (String ?b ?s))) = Some _ =>
      let v := fresh "v" in
      let r := fresh "r" in
      let E := fresh "E" in
      destruct (F (String a (String b s))) as [[v r]|] eqn:E;
      [|discriminate H];
      bind_step H;
      cases_of E; destruct E as [[-> ->]| ->];
      [rewrite sep_here in H; bind_step H
      |rewrite sep_digit in H by (assumption || reflexivity); discriminate H]
  end.

(** A time text with all fields on their full width, if it reads, is
    printed with the same digits. *)
Lemma strftime_strptime_digits
    Y1 Y2 Y3 Y4 m1 m2 d1 d2 H1 H2 M1 M2 S1 S2 fraction t :
  forallb Str.is_digit [Y1; Y2; Y3; Y4; m1; m2; d1; d2; H1; H2; M1; M2; S1; S2]
  = true ->
  Time.strptime
    (log_time Y1 Y2 Y3 Y4 m1 m2 d1 d2 H1 H2 M1 M2 S1 S2 fraction) = Some t ->
  Time.strftime (Time.localize_utc t)
  = shown_time Y1 Y2 Y3 Y4 m1 m2 d1 d2 H1 H2 M1 M2 S1 S2.
Proof.
  intros Hd H. cbn [forallb] in Hd.
  repeat (apply andb_true_iff in Hd as [? Hd]). clear Hd.
  unfold Time.strptime, log_time in H.
  rewrite field_Y_digits in H by assumption. bind_step H.
  rewrite sep_here in H. bind_step H.
  do 5 field_step H.
  destruct (Time.field_f fraction) as [[us r]|]; [|discriminate H].
  bind_step H. destruct r; [|discriminate H].
  destruct (Time.valid _ _ _ _ _ _ _); [|discriminate H].
  injection H as <-.
  unfold Time.strftime, Time.localize_utc, shown_time.
  cbn [year month day hour minute second].
  rewrite pad4_two, !pad2_two by assumption. reflexivity.
Qed.

(** X10.  When the admin-camera handler takes a line whose time text has
    all fields on their full width and reads, and the audit file opens, the
    entry it appends shows that time with the same digits (the date with its
    dots, the time of day with colons, the fraction of a second left out),
    then [UTC], the kind of change and the user. *)
Theorem audit_entry_shows_log_time
    line st c m Y1 Y2 Y3 Y4 m1 m2 d1 d2 H1 H2 M1 M2 S1 S2 fraction :
  admincam_takes line (self st) = true ->
  admincam_change line = Some (c, m) ->
  group m "time"
  = log_time Y1 Y2 Y3 Y4 m1 m2 d1 d2 H1 H2 M1 M2 S1 S2 fraction ->
  forallb Str.is_digit [Y1; Y2; Y3; Y4; m1; m2; d1; d2; H1; H2; M1; M2; S1; S2]
  = true ->
  Time.strptime (group m "time") <> None ->
  can_open (admincam_log st) = true ->
  written (admincam_log (snd (_match_admincam line st)))
  = written (admincam_log st)
    ++ [("[" +:+ shown_time Y1 Y2 Y3 Y4 m1 m2 d1 d2 H1 H2 M1 M2 S1 S2
         +:+ " UTC] " +:+ change_text c +:+ ": " +:+ group m "user")
        +:+ newline].
Proof.
  intros Ht Hc Htime Hd Hreads Ho.
  destruct (Monitor_facts._match_admincam_takes _ _ Ht) as (c' & m' & Hc' & ->).
  rewrite Hc in Hc'. injection Hc' as <- <-. cbv zeta.
  destruct (Time.strptime (group m "time")) as [t|] eqn:E; [|contradiction].
  rewrite Ho. cbn [snd with_entry admincam_log written].
  unfold audit_entry. rewrite Htime in E.
  now rewrite (strftime_strptime_digits _ _ _ _ _ _ _ _ _ _ _ _ _ _ _ _ Hd E).
Qed.

Lemma audit_entry_shows_log_time_witness :
  written (admincam_log
             (snd (_match_admincam (Ex.possess "2024.02.29-23.59.58:123" "Alice")
                     Ex.fresh)))
  = ["[2024.02.29 - 23:59:58 UTC] ++++++++++++ ENTER: Alice" +:+ newline].
Proof.
  apply (audit_entry_shows_log_time
           (Ex.possess "2024.02.29-23.59.58:123" "Alice") Ex.fresh ENTER
           [("time", "2024.02.29-23.59.58:123"); ("log_id", "155");
            ("user", "Alice")]
           "2" "0" "2" "4" "0" "2" "2" "9" "2" "3" "5" "9" "5" "8" "123");
    try (vm_compute; reflexivity).
  vm_compute. discriminate.
Defined.

End Time_round_trip.

(** ** The follower's counters *)

Section Follower_counters.

Lemma count_line_counter line cur_size fo :
  (line_counter (count_line line cur_size fo) < 1000)%N.
Proof. cbn. apply N.mod_lt. discriminate. Qed.

(** The recorded size stays while the counter has not come back to 0. *)
Lemma read_cycle_keeps_size reads : forall fo,
  (line_counter fo < 1000)%N ->
  let n := N.of_nat (List.length (fst (read_cycle reads fo))) in
  n = 0%N \/ (line_counter fo <> 0%N /\ (n <= 1000 - line_counter fo)%N) ->
  file_size (snd (read_cycle reads fo)) = file_size fo.
Proof.
  induction reads as [|[r cur_size] reads IH]; intros fo Hc; [reflexivity|].
  cbn [read_cycle]. destruct (line_read r) as [line|]; [|reflexivity].
  specialize (IH (count_line line cur_size fo)
                 (count_line_counter line cur_size fo)).
  destruct (read_cycle reads (count_line line cur_size fo)) as [ls fo'].
  cbn [fst snd List.length] in *. intros [Hz|[Hne Hn]]; [lia|].
  assert (Hsize : file_size (count_line line cur_size fo) = file_size fo).
  { cbn. destruct (N.eqb_spec (line_counter fo) 0); [contradiction | reflexivity]. }
  rewrite <- Hsize. apply IH.
  destruct ls as [|l ls]; [now left|]. right.
  assert (Hstep : line_counter (count_line line cur_size fo)
                  = (line_counter fo + 1)%N).
  { cbn. apply N.mod_small. cbn [List.length] in Hn. lia. }
  rewrite Hstep. cbn [List.length] in *. lia.
Qed.

(** X11.  Over one pass of the follower's read loop, the line counter
    advances by one per line yielded, modulo 1000, and the file object stays
    the same.  The recorded file size is refreshed only by the line read
    when the counter is 0: it takes the size reported at that line, and
    whatever sizes are reported at the lines before the counter comes back
    to 0, it is not changed by them.  A read that gives nothing ends the
    pass, and a read that cannot be decoded counts as a line. *)
Theorem read_cycle_counts reads fo :
  (line_counter fo < 1000)%N ->
  let ls := fst (read_cycle reads fo) in
  let fo' := snd (read_cycle reads fo) in
  let n := N.of_nat (List.length ls) in
  line_counter fo' = ((line_counter fo + n) mod 1000)%N
  /\ (List.length ls <= List.length reads)%nat
  /\ handle (f fo') = handle (f fo)
  /\ (line_counter fo <> 0%N -> (n <= 1000 - line_counter fo)%N ->
      file_size fo' = file_size fo)
  /\ (forall r cur_size rest,
        line_counter fo = 0%N -> reads = (r, cur_size) :: rest ->
        line_read r <> None -> (n <= 1000)%N ->
        file_size fo' = cur_size).
Proof.
  intros Hc ls fo' n. subst ls fo' n.
  split; [|split; [|split; [|split]]].
  - revert fo Hc. induction reads as [|[r cur_size] reads IH]; intros fo Hc.
    + cbn. now rewrite N.add_0_r, N.mod_small.
    + cbn [read_cycle]. destruct (line_read r) as [line|];
        [|cbn; now rewrite N.add_0_r, N.mod_small].
      specialize (IH (count_line line cur_size fo)
                     (count_line_counter line cur_size fo)).
      destruct (read_cycle reads (count_line line cur_size fo)) as [ls fo'].
      cbn [fst snd List.length] in *. rewrite IH. cbn [count_line line_counter].
      rewrite N.Div0.add_mod_idemp_l. f_equal. lia.
  - revert fo Hc. induction reads as [|[r cur_size] reads IH]; intros fo Hc.
    + cbn. lia.
    + cbn [read_cycle]. destruct (line_read r) as [line|]; [|cbn; lia].
      specialize (IH (count_line line cur_size fo)
                     (count_line_counter line cur_size fo)).
      destruct (read_cycle reads (count_line line cur_size fo)) as [ls fo'].
      cbn [fst snd List.length] in *. lia.
  - revert fo Hc. induction reads as [|[r cur_size] reads IH]; intros fo Hc.
    + reflexivity.
    + cbn [read_cycle]. destruct (line_read r) as [line|]; [|reflexivity].
      specialize (IH (count_line line cur_size fo)
                     (count_line_counter line cur_size fo)).
      destruct (read_cycle reads (count_line line cur_size fo)) as [ls fo'].
      cbn [fst snd] in *. exact IH.
  - intros Hne Hn. apply (read_cycle_keeps_size reads fo Hc). right. auto.
  - intros r cur_size rest Hz -> Hr Hn. cbn [read_cycle] in *.
    destruct (line_read r) as [line|]; [|contradiction].
    pose proof (read_cycle_keeps_size rest (count_line line cur_size fo)
                  (count_line_counter line cur_size fo)) as Hkeep.
    destruct (read_cycle rest (count_line line cur_size fo)) as [ls fo'].
    cbn [fst snd List.length] in *.
    rewrite Hkeep; [cbn; now rewrite Hz|].
    right. cbn [count_line line_counter]. rewrite Hz.
    change ((0 + 1) mod 1000)%N with 1%N. split; [discriminate | lia].
Qed.

(** A follower that has just opened the file reads three lines, one of them
    not decodable, while the file grows; the size recorded is the one at the
    first line. *)
Lemma read_cycle_counts_witness :
  let fo := {| f := {| handle := 0; offset := 100 |};
               file_size := 100; line_counter := 0 |}%N in
  let reads := [(Text Ex.damage_55, 200%N); (UnicodeDecodeError, 300%N);
                (Text (Ex.teamkill "55"), 400%N); (Text "", 400%N);
                (Text Ex_more.chat, 500%N)] in
  fst (read_cycle reads fo) = [Ex.damage_55; "DECODE_ERROR"; Ex.teamkill "55"]
  /\ line_counter (snd (read_cycle reads fo)) = 3%N
  /\ file_size (snd (read_cycle reads fo)) = 200%N.
Proof.
  intros fo reads.
  destruct (read_cycle_counts reads fo) as (Hc & _ & _ & _ & Hsize);
    [reflexivity|].
  split; [vm_compute; reflexivity|]. split.
  - rewrite Hc. vm_compute. reflexivity.
  - apply (Hsize (Text Ex.damage_55) 200%N
             [(UnicodeDecodeError, 300%N); (Text (Ex.teamkill "55"), 400%N);
              (Text "", 400%N); (Text Ex_more.chat, 500%N)]);
      try reflexivity; [discriminate | vm_compute; discriminate].
Defined.

End Follower_counters.

(** ** Identifiers as numbers *)

Section Identifier_numbers.
Import Monitor_facts Correlator_facts Pattern_facts Admincam_facts Time_facts.

Lemma int_digits_nonneg s :
  Str.all Str.is_digit s = true -> 0 <= Str.int s.
Proof.
  unfold Str.int. intros H.
  assert (Hgen : forall acc, 0 <= acc ->
            0 <= fold_left (fun acc a => 10 * acc + Str.digit_val a)
                   (list_ascii_of_string s) acc).
  { induction s as [|a s IH]; intros acc Hacc; [exact Hacc|].
    simpl in H. apply andb_true_iff in H as [Ha Hs].
    cbn [list_ascii_of_string fold_left]. apply IH; [exact Hs|].
    pose proof (digit_val_range a Ha). lia. }
  apply Hgen. lia.
Qed.

Lemma parse_line_last_log_id line st :
  last_log_id (self (snd (parse_line line st))) = last_log_id (self st)
  \/ exists team_kill,
       search teamkill_re line = Some team_kill
       /\ last_log_id (self (snd (parse_line line st)))
          = Str.int (group team_kill "log_id").
Proof.
  rewrite parse_line_eq.
  destruct (admincam_takes line (self st)) eqn:E.
  - left. destruct (_match_admincam_takes _ _ E) as (c & m & _ & ->). cbv zeta.
    destruct (Time.strptime _); [destruct (can_open _)|]; destruct c; reflexivity.
  - destruct (search damage_re line); [now left|].
    destruct (search teamkill_re line) as [team_kill|] eqn:Et.
    + right. exists team_kill. split; [reflexivity|].
      now apply _match_teamkill_last.
    + left. now rewrite (_match_teamkill_none _ _ Et).
Qed.

Lemma teamkill_id_nonneg line team_kill :
  search teamkill_re line = Some team_kill ->
  0 <= Str.int (group team_kill "log_id").
Proof.
  intros H. apply teamkill_line_shape in H
    as (pre & lid & mid1 & mid2 & post & -> & _ & Hd & _).
  now apply int_digits_nonneg.
Qed.

(** X12.  The identifier the monitor records is never negative: it stays
    so over any run from a monitor where it is not.  As the wraparound test
    adds 500 to an identifier that is not negative, no line empties
    [seen_tks] while [last_log_id] is at most 500, as it is on a new
    monitor. *)
Theorem last_log_id_never_negative :
  (forall lines st,
     0 <= last_log_id (self st) ->
     0 <= last_log_id (self (snd (tk_follow lines st))))
  /\ (forall line st,
        last_log_id (self st) <= 500 ->
        seen_tks (self st) ⊆ seen_tks (self (snd (parse_line line st)))).
Proof.
  split.
  - induction lines as [|line lines IH]; intros st H0; [exact H0|].
    cbn [tk_follow].
    assert (Hstep : 0 <= last_log_id (self (snd (parse_line line st)))).
    { destruct (parse_line_last_log_id line st) as [->|(tk & Hs & ->)];
        [exact H0 | now apply (teamkill_id_nonneg line)]. }
    destruct (parse_line line st) as [[tk|e] st1]; [|exact Hstep].
    specialize (IH st1 Hstep).
    now destruct (tk_follow lines st1) as [[tks r] st2].
  - intros line st Hlow. apply parse_line_seen_grows.
    intros team_kill Hs. unfold wraps.
    pose proof (teamkill_id_nonneg _ _ Hs). apply Z.ltb_ge. lia.
Qed.

Lemma last_log_id_never_negative_witness :
  let lines := [Ex.damage_400; Ex.teamkill "400"] in
  0 <= last_log_id (self (snd (tk_follow lines Ex.fresh)))
  /\ seen_tks (self Ex.fresh)
     ⊆ seen_tks (self (snd (parse_line (Ex.teamkill "400") Ex.fresh))).
Proof.
  intros lines. destruct last_log_id_never_negative as [Hnn Hkeep].
  split; [apply Hnn | apply Hkeep]; vm_compute; discriminate.
Defined.

End Identifier_numbers.

(** ** The embed of a record *)

Module Post_facts.

Lemma days_in_month_range y m : 28 <= Time.days_in_month y m <= 31.
Proof.
  unfold Time.days_in_month.
  destruct (m =? 2); [destruct (Time.is_leap y); lia|].
  destruct ((m =? 4) || (m =? 6) || (m =? 9) || (m =? 11)); lia.
Qed.

Ltac split_valid H :=
  unfold valid_datetime, Time.valid in H;
  repeat (apply andb_true_iff in H; destruct H as [H ?]);
  repeat match goal with
         | H : (_ <=? _) = true |- _ => apply Z.leb_le in H
         end.

Ltac cmp :=
  repeat match goal with
         | |- context [?a <? ?b] => destruct (Z.ltb_spec a b)
         | |- context [?a =? ?b] => destruct (Z.eqb_spec a b)
         | |- context [?a <=? ?b] => destruct (Z.leb_spec a b)
         end;
  cbn [orb andb]; try reflexivity; try lia.

(** The date of the wall time is the day before that of the time in UTC
    exactly when the offset takes the time of day below zero. *)
Lemma astimezone_date_gt off t c :
  Post.astimezone off t = Some c ->
  Post.date_gt t c = (Post.seconds_of_day t + off <? 0).
Proof.
  unfold Post.astimezone, Post.date_gt.
  pose proof (days_in_month_range (year t) (month t - 1)).
  pose proof (days_in_month_range (year t) (month t)).
  destruct (Z.ltb_spec (Post.seconds_of_day t + off) 0).
  - unfold Post.prev_day.
    destruct (Z.ltb_spec 1 (day t)); [|destruct (Z.ltb_spec 1 (month t))];
      (destruct (_ && _); [|discriminate]); intros [= <-]; cbn; cmp.
  - destruct (Z.leb_spec 86400 (Post.seconds_of_day t + off)).
    + unfold Post.next_day.
      destruct (Z.ltb_spec (day t) (Time.days_in_month (year t) (month t)));
        [|destruct (Z.ltb_spec (month t) 12)];
        (destruct (_ && _); [|discriminate]); intros [= <-]; cbn; cmp.
    + (destruct (_ && _); [|discriminate]); intros [= <-]; cbn; cmp.
Qed.

Lemma seconds_of_day_range t :
  valid_datetime t -> 0 <= Post.seconds_of_day t < 86400.
Proof. intros H. split_valid H. unfold Post.seconds_of_day. lia. Qed.

Lemma days_in_month_12 y : Time.days_in_month y 12 = 31.
Proof. reflexivity. Qed.

(** The wall time is a date and a time of day. *)
Lemma astimezone_valid off t c :
  valid_datetime t -> -86400 < off < 86400 ->
  Post.astimezone off t = Some c -> valid_datetime c.
Proof.
  intros Hv Hoff. pose proof (seconds_of_day_range t Hv) as Hs.
  split_valid Hv. unfold Post.astimezone.
  pose proof (days_in_month_range (year t) (month t - 1)).
  assert (Htime : forall secs, 0 <= secs < 86400 ->
            0 <= secs / 3600 <= 23 /\ 0 <= secs mod 3600 / 60 <= 59
            /\ 0 <= secs mod 60 <= 59).
  { intros secs Hsecs.
    pose proof (Z.mod_pos_bound secs 3600 ltac:(lia)).
    pose proof (Z.mod_pos_bound secs 60 ltac:(lia)).
    repeat split;
      try (apply Z.div_pos; lia);
      try (apply Z.div_le_lower_bound; lia);
      try lia.
    - assert (secs / 3600 < 24) by (apply Z.div_lt_upper_bound; lia). lia.
    - assert (secs mod 3600 / 60 < 60) by (apply Z.div_lt_upper_bound; lia). lia. }
  assert (Hgoal : forall y m d secs,
            1 <= m <= 12 -> 1 <= d <= Time.days_in_month y m ->
            0 <= secs < 86400 ->
            (if (1 <=? y) && (y <=? 9999)
             then Some (mk_datetime y m d (secs / 3600) (secs mod 3600 / 60)
                          (secs mod 60) (microsecond t) (tz t))
             else None) = Some c ->
            valid_datetime c).
  { intros y m d secs Hm Hd Hsecs.
    destruct ((1 <=? y) && (y <=? 9999)) eqn:Ey; [|discriminate].
    intros [= <-]. apply andb_true_iff in Ey as [Ey1 Ey2].
    apply Z.leb_le in Ey1, Ey2. destruct (Htime secs Hsecs) as (? & ? & ?).
    unfold valid_datetime, Time.valid. cbn.
    repeat (apply andb_true_iff; split); apply Z.leb_le; lia. }
  destruct (Z.ltb_spec (Post.seconds_of_day t + off) 0).
  - unfold Post.prev_day.
    destruct (Z.ltb_spec 1 (day t)); [|destruct (Z.ltb_spec 1 (month t))];
      apply Hgoal; try lia.
    rewrite days_in_month_12. lia.
  - destruct (Z.leb_spec 86400 (Post.seconds_of_day t + off)).
    + unfold Post.next_day.
      destruct (Z.ltb_spec (day t) (Time.days_in_month (year t) (month t)));
        [|destruct (Z.ltb_spec (month t) 12)];
        apply Hgoal; try lia.
      * pose proof (days_in_month_range (year t) (month t + 1)). lia.
      * pose proof (days_in_month_range (year t + 1) 1). lia.
    + apply Hgoal; lia.
Qed.

End Post_facts.

Section Posting.
Import Post_facts.

Variable TIMEZONE : datetime -> Z.
Variable TIMEZONE_NAME : string.

(** X13.  For a record whose time is a date and a time of day, and a zone
    whose offset is less than a day: the embed has the six fields Date /
    Time, Time (UTC), Map, Killer, Victim and Weapon in this order, the
    first with the wall time of the zone, which is again a date and a time
    of day.  The UTC time is followed by [(+1 day)] exactly when the offset
    takes the time of day below zero, that is when the zone is still on the
    day before; it is never marked for a zone ahead of UTC, also when that
    zone is already on the day after.  Building the embed fails only next to
    the first and the last year. *)
Theorem utc_time_day_marker server_info teamkill :
  let t := time_utc teamkill in
  let off := TIMEZONE t in
  valid_datetime t ->
  -86400 < off < 86400 ->
  (1 < year t < 9999 ->
   Post.post_tk_embed TIMEZONE TIMEZONE_NAME server_info teamkill <> None)
  /\ (forall e,
        Post.post_tk_embed TIMEZONE TIMEZONE_NAME server_info teamkill = Some e ->
        exists time_config,
          Post.astimezone off t = Some time_config
          /\ valid_datetime time_config
          /\ e = {| title := "TK on " +:+ info_name server_info;
                    fields :=
                      [ mk_EmbedField
                          ("Date / Time (" +:+ TIMEZONE_NAME +:+ ")")
                          (Post.strftime_config time_config) true;
                        mk_EmbedField "Time (UTC)"
                          (if Post.seconds_of_day t + off <? 0
                           then Post.strftime_clock t +:+ " (+1 day)"
                           else Post.strftime_clock t) true;
                        mk_EmbedField "Map" (info_map server_info) true;
                        mk_EmbedField "Killer" (killer teamkill) true;
                        mk_EmbedField "Victim" (victim teamkill) true;
                        mk_EmbedField "Weapon" (weapon teamkill) true ] |}
          /\ (0 <= off -> (Post.seconds_of_day t + off <? 0) = false)).
Proof.
  intros t off Hv Hoff. unfold Post.post_tk_embed. fold t. fold off. split.
  - intros Hy. unfold Post.astimezone.
    assert (Hin : forall y, year t - 1 <= y <= year t + 1 ->
                            (1 <=? y) && (y <=? 9999) = true).
    { intros y Hr. apply andb_true_iff. split; apply Z.leb_le; lia. }
    destruct (Z.ltb_spec (Post.seconds_of_day t + off) 0);
      [|destruct (Z.leb_spec 86400 (Post.seconds_of_day t + off))].
    + unfold Post.prev_day.
      destruct (1 <? day t); [|destruct (1 <? month t)];
        rewrite Hin by lia; discriminate.
    + unfold Post.next_day.
      destruct (day t <? _); [|destruct (month t <? 12)];
        rewrite Hin by lia; discriminate.
    + rewrite Hin by lia. discriminate.
  - intros e.
    destruct (Post.astimezone off t) as [time_config|] eqn:E; [|discriminate].
    cbn [mbind option_bind]. intros [= <-].
    exists time_config. split; [reflexivity|].
    split; [exact (astimezone_valid _ _ _ Hv Hoff E)|].
    rewrite (astimezone_date_gt _ _ _ E). split; [reflexivity|].
    intros Hoff0. pose proof (seconds_of_day_range t Hv). apply Z.ltb_ge. lia.
Qed.

End Posting.

Section Posting_examples.

(** A kill at 03:10 UTC seen from a zone five hours behind is on the day
    before there, and the UTC time is marked; a kill at 23:10 UTC seen from a
    zone two hours ahead is on the day after there, and nothing is
    marked. *)
Lemma utc_time_day_marker_witness :
  valid_datetime (time_utc (Ex_more.kill_at 3))
  /\ (option_map (fun e => map field_value (fields e))
        (Post.post_tk_embed Ex_more.five_behind "EST" Ex_more.server
           (Ex_more.kill_at 3))
      = Some ["02/29/2024 22:10:00"; "03:10:00 (+1 day)"; "Narva AAS v1";
              "K"; "V"; "AK47"])
  /\ (option_map (fun e => map field_value (fields e))
        (Post.post_tk_embed Ex_more.two_ahead "EET" Ex_more.server
           (Ex_more.kill_at 23))
      = Some ["03/02/2024 01:10:00"; "23:10:00"; "Narva AAS v1";
              "K"; "V"; "AK47"]).
Proof.
  assert (Hv : forall h, 0 <= h <= 23 ->
                         valid_datetime (time_utc (Ex_more.kill_at h))).
  { intros h Hh. unfold valid_datetime, Time.valid. cbn.
    repeat (apply andb_true_iff; split); try reflexivity; apply Z.leb_le; lia. }
  split; [apply Hv; lia|]. split.
  - destruct (utc_time_day_marker Ex_more.five_behind "EST" Ex_more.server
                (Ex_more.kill_at 3)) as [Hsome Hfields];
      [apply Hv; lia | cbv; split; reflexivity|].
    destruct (Post.post_tk_embed _ _ _ _) as [e|];
      [|exfalso; apply Hsome; [cbv; split; reflexivity | reflexivity]].
    destruct (Hfields e eq_refl) as (c & Hc & _ & -> & _).
    vm_compute in Hc. injection Hc as <-. reflexivity.
  - destruct (utc_time_day_marker Ex_more.two_ahead "EET" Ex_more.server
                (Ex_more.kill_at 23)) as [Hsome Hfields];
      [apply Hv; lia | cbv; split; reflexivity|].
    destruct (Post.post_tk_embed _ _ _ _) as [e|];
      [|exfalso; apply Hsome; [cbv; split; reflexivity | reflexivity]].
    destruct (Hfields e eq_refl) as (c & Hc & _ & -> & _).
    vm_compute in Hc. injection Hc as <-. reflexivity.
Defined.

End Posting_examples.

(** ** Where the user of a leave ends *)

Module Greedy_facts.
Import Re_spec Str_facts Re_facts Pattern_facts Search_facts.

Lemma app_nil_r_string (s : string) : s +:+ "" = s.
Proof. induction s as [|a s IH]; [reflexivity|]. rewrite app_cons. now f_equal. Qed.

Lemma span_drop_span c s : span c (Str.drop (span c s) s) = 0%nat.
Proof.
  induction s as [|a s IH]; [reflexivity|].
  simpl. destruct (accepts c a) eqn:E; [exact IH|]. simpl. now rewrite E.
Qed.

(** A repetition at the end of a pattern takes all it can. *)
Lemma match_here_last_rep g c mn s m :
  match_here [Rep g c mn] s = Some m ->
  m = bind_group g (Str.take (span c s) s) [] /\ (mn <= span c s)%nat.
Proof.
  cbn [match_here].
  assert (Hfail : forall k, (k < mn)%nat ->
            (fix give_back (k : nat) : option Match :=
               match (if Nat.leb mn k then Some [] else None) with
               | Some m0 => Some (bind_group g (Str.take k s) m0)
               | None => match k with O => None | S k' => give_back k' end
               end) k = None).
  { induction k as [|k IH]; intros Hk;
      (replace (Nat.leb mn _) with false by (symmetry; apply Nat.leb_gt; lia)).
    - reflexivity.
    - apply IH. lia. }
  destruct (Nat.le_gt_cases mn (span c s)) as [Hle|Hgt].
  - destruct (span c s) as [|n] eqn:En;
      (replace (Nat.leb mn _) with true by (symmetry; apply Nat.leb_le; lia));
      intros [= <-]; auto.
  - intros H. pose proof (eq_trans (eq_sym (Hfail _ Hgt)) H) as X.
    discriminate X.
Qed.

(** What a pattern ending in a repetition accepts is followed by a
    character the repetition does not take, or by nothing. *)
Lemma match_here_sound_greedy r g c mn : forall s m,
  match_here (r ++ [Rep g c mn]) s = Some m ->
  exists t rest,
    s = t +:+ rest /\ matches (r ++ [Rep g c mn]) t m /\ span c rest = 0%nat.
Proof.
  induction r as [|i r IH]; intros s m H.
  - cbn [app] in *. destruct (match_here_last_rep _ _ _ _ _ H) as [-> Hmn].
    exists (Str.take (span c s) s), (Str.drop (span c s) s).
    split; [symmetry; apply take_drop|]. split; [|apply span_drop_span].
    destruct (take_span c (span c s) s (Nat.le_refl _)) as [Hall Hlen].
    pose proof (matches_rep g c mn [] _ "" [] Hall) as Hm.
    rewrite app_nil_r_string in Hm. apply Hm; [lia | constructor].
  - change ((i :: r) ++ [Rep g c mn]) with (i :: (r ++ [Rep g c mn])) in *.
    destruct i as [l | g' c' mn']; cbn [match_here] in H.
    + destruct (Str.strip_prefix l s) as [s'|] eqn:E; [|discriminate].
      apply strip_prefix_app in E. subst s.
      destruct (IH _ _ H) as (t & rest & -> & Hm & Hr).
      exists (l +:+ t), rest. split; [symmetry; apply app_assoc|].
      split; [now constructor | exact Hr].
    + assert (Hk : forall k, (k <= span c' s)%nat ->
                (fix give_back (k : nat) : option Match :=
                   let attempt :=
                     if Nat.leb mn' k
                     then match_here (r ++ [Rep g c mn]) (Str.drop k s)
                     else None in
                   match attempt with
                   | Some m => Some (bind_group g' (Str.take k s) m)
                   | None => match k with O => None | S k' => give_back k' end
                   end) k = Some m ->
                exists t rest,
                  s = t +:+ rest
                  /\ matches (Rep g' c' mn' :: r ++ [Rep g c mn]) t m
                  /\ span c rest = 0%nat).
      { clear H. induction k as [|k IHk]; intros Hle Hk.
        - destruct (Nat.leb mn' 0) eqn:Emn; [|discriminate].
          destruct (match_here _ (Str.drop 0 s)) as [m'|] eqn:E; [|discriminate].
          injection Hk as <-.
          destruct (IH _ _ E) as (t & rest & Hs & Hm & Hr).
          apply Nat.leb_le in Emn.
          exists (Str.take 0 s +:+ t), rest. split; [|split; [|exact Hr]].
          + rewrite app_assoc, <- Hs. symmetry. apply take_drop.
          + destruct (take_span c' 0 s Hle). constructor; auto; lia.
        - destruct (if Nat.leb mn' (S k)
                    then match_here (r ++ [Rep g c mn]) (Str.drop (S k) s)
                    else None) as [m'|] eqn:E.
          + injection Hk as <-.
            destruct (Nat.leb mn' (S k)) eqn:Emn; [|discriminate].
            destruct (IH _ _ E) as (t & rest & Hs & Hm & Hr).
            apply Nat.leb_le in Emn.
            exists (Str.take (S k) s +:+ t), rest. split; [|split; [|exact Hr]].
            * rewrite app_assoc, <- Hs. symmetry. apply take_drop.
            * destruct (take_span c' (S k) s Hle) as [H1 H2].
              constructor; [exact H1 | | exact Hm].
              apply (Nat.le_trans _ _ _ Emn), Nat.eq_le_incl.
              symmetry. exact H2.
          + apply IHk; [lia | exact Hk]. }
      apply (Hk (span c' s)); [lia | exact H].
Qed.

End Greedy_facts.

Section Leave_user.
Import Re_spec Str_facts Re_facts Pattern_facts Search_facts Greedy_facts.

Lemma search_sound_greedy r g c mn : forall s m,
  search (r ++ [Rep g c mn]) s = Some m ->
  exists pre t rest,
    s = pre +:+ t +:+ rest
    /\ matches (r ++ [Rep g c mn]) t m /\ span c rest = 0%nat.
Proof.
  induction s as [|a s IH]; intros m H; simpl in H.
  - destruct (match_here _ "") as [m'|] eqn:E; [|discriminate].
    injection H as <-.
    destruct (match_here_sound_greedy _ _ _ _ _ _ E) as (t & rest & Hs & Hm).
    exists "", t, rest. auto.
  - destruct (match_here _ (String a s)) as [m'|] eqn:E.
    + injection H as <-.
      destruct (match_here_sound_greedy _ _ _ _ _ _ E) as (t & rest & Hs & Hm).
      exists "", t, rest. auto.
    + destruct (IH _ H) as (pre & t & rest & -> & Hm).
      exists (String a pre), t, rest. auto.
Qed.

(** X14.  The user of an unpossess line is all the text from a [PC=] of the
    line to the end of the line: it holds no newline, and what follows it is
    a newline or nothing.  So a leave is paired with an enter only when the
    name read from the possess line is the whole rest of the unpossess line
    after [PC=]. *)
Theorem leave_user_runs_to_end_of_line line m :
  search unpossess_re line = Some m ->
  exists before rest,
    line = before +:+ "PC=" +:+ group m "user" +:+ rest
    /\ Str.all (accepts Dot) (group m "user") = true
    /\ (rest = "" \/ exists rest', rest = String Str.nl rest').
Proof.
  intros H.
  change unpossess_re
    with ([ Lit "["; Rep (Some "time") (NoneOf "]") 1; Lit "]";
            Lit "["; Rep (Some "log_id") Digit 1; Lit "]";
            Rep None (NoneOf Str.nl) 0;
            Lit "ASQPlayerController::UnPossess";
            Rep None (NoneOf Str.nl) 0;
            Lit "PC=" ] ++ [Rep (Some "user") Dot 0]) in H.
  apply search_sound_greedy in H as (pre & t & rest & -> & Hm & Hrest).
  cbn [app] in Hm.
  lit Hm. rep Hm time Ht Ht'. lit Hm. lit Hm. rep Hm lid Hid Hid'. lit Hm.
  rep Hm mid1 H1 H1'. lit Hm. rep Hm mid2 H2 H2'. lit Hm. rep Hm user Hu Hu'.
  apply matches_nil_inv in Hm as [-> ->].
  exists (fold_right append ""
            [pre; "["; time; "]"; "["; lid; "]"; mid1;
             "ASQPlayerController::UnPossess"; mid2]), rest.
  split; [|split].
  - transitivity
      (fold_right append rest
         ([pre; "["; time; "]"; "["; lid; "]"; mid1;
           "ASQPlayerController::UnPossess"; mid2] ++ ["PC="; user])).
    + apply (f_equal (append pre)).
      exact (join_app ["["; time; "]"; "["; lid; "]"; mid1;
                       "ASQPlayerController::UnPossess"; mid2;
                       "PC="; user] rest).
    + exact (join_split [pre; "["; time; "]"; "["; lid; "]"; mid1;
                         "ASQPlayerController::UnPossess"; mid2]
                        ["PC="; user] rest).
  - exact Hu.
  - destruct rest as [|a rest]; [now left|]. right.
    simpl in Hrest. destruct (Ascii.eqb_spec a Str.nl) as [->|Hne]; [eauto|].
    simpl in Hrest. discriminate.
Qed.

(** An unpossess line with the name at its end gives the name; with more
    text after the name, the user is the name and that text. *)
Lemma leave_user_runs_to_end_of_line_witness :
  option_map (fun m => group m "user")
    (search unpossess_re (Ex.unpossess "2024.01.01-00.00.02:000" "156" "Alice"))
  = Some "Alice"
  /\ option_map (fun m => group m "user")
       (search unpossess_re
          (Ex.unpossess "2024.01.01-00.00.02:000" "156" "Alice"
           +:+ " Pawn=CameraMan_C_2147"))
     = Some "Alice Pawn=CameraMan_C_2147"
  /\ exists before rest,
       Ex.unpossess "2024.01.01-00.00.02:000" "156" "Alice"
       = before +:+ "PC=" +:+ "Alice" +:+ rest
       /\ (rest = "" \/ exists rest', rest = String Str.nl rest').
Proof.
  split; [vm_compute; reflexivity|]. split; [vm_compute; reflexivity|].
  destruct (leave_user_runs_to_end_of_line
              (Ex.unpossess "2024.01.01-00.00.02:000" "156" "Alice")
              [("time", "2024.01.01-00.00.02:000"); ("log_id", "156");
               ("user", "Alice")])
    as (before & rest & Hline & _ & Hend); [vm_compute; reflexivity|].
  exists before, rest. auto.
Defined.

End Leave_user.

Section Patterns_found_examples.

Lemma teamkill_pattern_found_witness :
  search teamkill_re (Ex.teamkill "55") <> None
  /\ exists pre mid1 mid2 post,
       Ex.teamkill "55"
       = pre +:+ "[" +:+ "55" +:+ "]" +:+ mid1 +:+ "LogSquadScorePoints:"
         +:+ mid2 +:+ "TeamKilled" +:+ post.
Proof.
  destruct (teamkill_pattern_found (Ex.teamkill "55")) as [Hshape Hfound].
  split.
  - apply (Hfound "[2024.01.01-00.00.01:000]" "55" "" " Verbose: K " " V");
      try (vm_compute; reflexivity).
    cbn. lia.
  - destruct (Hshape [("log_id", "55")]) as (pre & lid & mid1 & mid2 & post & Hm & Hl & _);
      [vm_compute; reflexivity|].
    injection Hm as <-. exists pre, mid1, mid2, post. exact Hl.
Defined.

Lemma damage_pattern_found_witness :
  search damage_re Ex.damage_55 <> None
  /\ exists pre amount post,
       Ex.damage_55
       = pre +:+ "[" +:+ "2024.01.01-00.00.00:000" +:+ "][" +:+ "55"
         +:+ "]LogSquad: Player:" +:+ "V" +:+ " ActualDamage=" +:+ amount
         +:+ " from " +:+ "K" +:+ " caused by BP_" +:+ "AK47" +:+ "_" +:+ post.
Proof.
  destruct (damage_pattern_found Ex.damage_55) as [Hshape Hfound].
  split.
  - apply (Hfound "" "2024.01.01-00.00.00:000" "55" "V" "100.0" "K" "AK47"
             "C_2147");
      try (vm_compute; reflexivity); cbn; lia.
  - destruct (Hshape Ex.match_55)
      as (pre & time & lid & vic & amount & kil & wpn & post & Hm & Hl & _);
      [vm_compute; reflexivity|].
    injection Hm as <- <- <- <- <-. exists pre, amount, post. exact Hl.
Defined.

End Patterns_found_examples.

(** ** When a damage has left the window *)

Section Window_expiry.
Import Monitor_facts Correlator_facts Window_facts.

Lemma last20_short {A : Type} (l : list A) :
  (List.length l <= 20)%nat -> last20 l = l.
Proof.
  intros H. unfold last20.
  replace (List.length l - 20)%nat with 0%nat by lia. apply drop_0.
Qed.

Lemma last20_app_long {A : Type} (l ms : list A) :
  (20 <= List.length ms)%nat -> last20 (l ++ ms) = last20 ms.
Proof.
  intros H. unfold last20. rewrite length_app.
  replace (List.length l + List.length ms - 20)%nat
    with (List.length l + (List.length ms - 20))%nat by lia.
  now rewrite drop_app_add.
Qed.

Lemma In_last20 {A : Type} (x : A) l : In x (last20 l) -> In x l.
Proof.
  unfold last20. intros H.
  rewrite <- (take_drop (List.length l - 20) l). apply in_or_app. now right.
Qed.

(** X15.  Twenty later damages push a damage out of the window: after the
    damage handler has found the pattern in at least twenty lines, none of
    them with the identifier of a teamkill line, that teamkill line gets
    [None], whatever was buffered before. *)
Theorem damage_forgotten_after_twenty lines st line team_kill :
  window_bounded st ->
  (20 <= List.length (omap (search damage_re) lines))%nat ->
  (forall dmg, In dmg (omap (search damage_re) lines) ->
               group dmg "log_id" <> group team_kill "log_id") ->
  search teamkill_re line = Some team_kill ->
  fst (_match_teamkill line (feed_damages lines st)) = Return None.
Proof.
  intros Hb Hlen Hother Hs.
  assert (Hw : recent_damages (self (feed_damages lines st))
               = last20 (omap (search damage_re) lines)).
  { rewrite (feed_damages_last20 lines (recent_damages (self st)) st)
      by (symmetry; now apply last20_short).
    now apply last20_app_long. }
  rewrite (_match_teamkill_cases _ _ _ Hs).
  destruct (decide _); [reflexivity|].
  destruct (find_damage _ _) as [dmg|] eqn:Ef; [|reflexivity].
  apply find_damage_Some in Ef as [Hin Hid].
  rewrite Hw in Hin. apply In_last20 in Hin. now apply Hother in Hin.
Qed.

Lemma damage_forgotten_after_twenty_witness :
  let st := Ex.fed [Ex.damage_55] in
  let lines := repeat Ex.damage_900 20 in
  window_bounded st
  /\ find_damage "55" (recent_damages (self st)) = Some Ex.match_55
  /\ fst (_match_teamkill (Ex.teamkill "55") (feed_damages lines st))
     = Return None.
Proof.
  intros st lines.
  assert (Hb : window_bounded st) by (vm_compute; repeat constructor).
  split; [exact Hb|]. split; [vm_compute; reflexivity|].
  apply (damage_forgotten_after_twenty lines st (Ex.teamkill "55")
           [("log_id", "55")] Hb).
  - vm_compute. repeat constructor.
  - intros dmg Hin. vm_compute in Hin.
    repeat (destruct Hin as [<-|Hin]; [discriminate|]). contradiction.
  - vm_compute. reflexivity.
Defined.

End Window_expiry.
